(** * Routing module of the almanac web application ([src/app/routes.py])

    A shallow embedding of the request handlers registered by [configure]:
    the cache policy applied after each request ([add_header]), the
    previous/next chapter walk ([get_chapter_nextprev]), the two handlers
    that reorder the contributors ([contributors], [ebook]), the
    accessibility statement and legacy image redirects, and the error
    handlers.

    Python values are represented by the tree type [pyval]; the year
    configuration returned by [get_config] is a mutable object shared
    between requests and lives in a store indexed by locations.  Handlers
    run in a state-and-exception monad over that store. *)

From Stdlib Require Import ZArith Ascii String List Lia Sorted.
From stdpp Require Import base option list strings gmap.

Local Open Scope string_scope.

#[local] Set Warnings "-register-all".

(** ** Python values *)

(** The values a configuration document loaded from JSON is made of.
    A [dict] keeps its insertion order, so it is an association list whose
    keys are pairwise distinct ([dict_wf]). *)
Inductive pyval : Type :=
  | PNone
  | PBool (b : bool)
  | PInt (n : Z)
  | PStr (s : string)
  | PList (l : list pyval)
  | PDict (d : list (string * pyval)).

Abbreviation pydict := (list (string * pyval)).

Definition dict_wf (d : pydict) : Prop := NoDup d.*1.

(** The exceptions the handlers can raise; [HTTPException] is what
    [abort(code)] raises. *)
Inductive exn : Type :=
  | KeyError (k : string)
  | TypeError
  | AttributeError
  | IndexError
  | HTTPException (code : Z).

Inductive result (A : Type) : Type :=
  | Ok (a : A)
  | Raise (e : exn).
Arguments Ok {A} a.
Arguments Raise {A} e.

#[global] Instance result_ret : MRet result := fun A a => Ok a.
#[global] Instance result_bind : MBind result := fun A B f m =>
  match m with Ok a => f a | Raise e => Raise e end.
#[global] Instance result_fmap : FMap result := fun A B f m =>
  match m with Ok a => Ok (f a) | Raise e => Raise e end.

(** ** Dictionaries *)

(** [d.get(k)] on the association list. *)
Fixpoint dict_get (k : string) (d : pydict) : option pyval :=
  match d with
  | [] => None
  | (k', v) :: d' => if String.eqb k k' then Some v else dict_get k d'
  end.

(** [d[k] = v]: an existing key keeps its position, a new key goes last. *)
Fixpoint dict_set (k : string) (v : pyval) (d : pydict) : pydict :=
  match d with
  | [] => [(k, v)]
  | (k', v') :: d' =>
      if String.eqb k k' then (k', v) :: d' else (k', v') :: dict_set k v d'
  end.

(** [dict(pairs)]: the pairs are inserted from left to right. *)
Definition dict_of_items (items : pydict) : pydict :=
  foldl (fun d kv => dict_set kv.1 kv.2 d) [] items.

(** ** Dynamic operations used by the handlers *)

(** [k in s] for two strings. *)
Fixpoint is_substring (k s : string) : bool :=
  String.prefix k s ||
  match s with
  | EmptyString => false
  | String _ s' => is_substring k s'
  end.

(** [v == s] where [s] is a [str]: only an equal string is equal to it. *)
Definition py_eq_str (v : pyval) (s : string) : bool :=
  match v with
  | PStr s' => String.eqb s' s
  | _ => false
  end.

(** Truth value of an object, as tested by [if v:]. *)
Definition py_truthy (v : pyval) : bool :=
  match v with
  | PNone => false
  | PBool b => b
  | PInt n => negb (n =? 0)%Z
  | PStr s => negb (String.eqb s "")
  | PList l => match l with [] => false | _ => true end
  | PDict d => match d with [] => false | _ => true end
  end.

(** The elements [for x in v] visits.  A dict yields its keys and a string
    its characters. *)
Definition py_iter (v : pyval) : result (list pyval) :=
  match v with
  | PList l => Ok l
  | PDict d => Ok (PStr <$> d.*1)
  | PStr s => Ok ((fun c => PStr (String c EmptyString)) <$> list_ascii_of_string s)
  | _ => Raise TypeError
  end.

(** [v[k]] with a string key [k]. *)
Definition py_getitem (v : pyval) (k : string) : result pyval :=
  match v with
  | PDict d => match dict_get k d with Some x => Ok x | None => Raise (KeyError k) end
  | _ => Raise TypeError
  end.

(** [k in v] with a string [k]. *)
Definition py_contains (k : string) (v : pyval) : result bool :=
  match v with
  | PDict d => Ok (bool_decide (is_Some (dict_get k d)))
  | PList l => Ok (existsb (fun x => py_eq_str x k) l)
  | PStr s => Ok (is_substring k s)
  | _ => Raise TypeError
  end.

(** [v.get(k)]: only dictionaries have the method. *)
Definition py_get (v : pyval) (k : string) : result pyval :=
  match v with
  | PDict d => Ok (default PNone (dict_get k d))
  | _ => Raise AttributeError
  end.

(** ** Previous and next chapter *)

(** The three local variables of [get_chapter_nextprev]. *)
Record scan : Type := Scan {
  prev_chapter : pyval;
  next_chapter : pyval;
  found : bool
}.

Definition scan_init : scan :=
  {| prev_chapter := PNone; next_chapter := PNone; found := false |}.

(** ['todo' not in chapter] *)
Definition not_todo (chapter : pyval) : result bool :=
  negb <$> py_contains "todo" chapter.

(** The inner loop [for chapter in part['chapters']]; [break] ends the
    loop, so the state is returned at once.  [and] evaluates its right
    operand only when the left one is true. *)
Fixpoint scan_chapters (chapter_slug : string) (chapters : list pyval)
    (st : scan) : result scan :=
  match chapters with
  | [] => Ok st
  | chapter :: rest =>
      c1 ← (if found st then not_todo chapter else Ok false);
      if c1 : bool then
        Ok {| prev_chapter := prev_chapter st; next_chapter := chapter;
              found := found st |}
      else
        slug ← py_get chapter "slug";
        c2 ← (if py_eq_str slug chapter_slug then not_todo chapter else Ok false);
        if c2 : bool then
          scan_chapters chapter_slug rest
            {| prev_chapter := prev_chapter st;
               next_chapter := next_chapter st; found := true |}
        else
          c3 ← not_todo chapter;
          if c3 : bool then
            scan_chapters chapter_slug rest
              {| prev_chapter := chapter; next_chapter := next_chapter st;
                 found := found st |}
          else scan_chapters chapter_slug rest st
  end.

(** The outer loop [for part in config['outline']], left as soon as the
    target was found and [next_chapter] is a true value. *)
Fixpoint scan_parts (chapter_slug : string) (parts : list pyval)
    (st : scan) : result scan :=
  match parts with
  | [] => Ok st
  | part :: rest =>
      cs ← py_getitem part "chapters";
      chapters ← py_iter cs;
      st' ← scan_chapters chapter_slug chapters st;
      if found st' && py_truthy (next_chapter st') then Ok st'
      else scan_parts chapter_slug rest st'
  end.

Definition get_chapter_nextprev (config : pyval) (chapter_slug : string)
    : result (pyval * pyval) :=
  o ← py_getitem config "outline";
  parts ← py_iter o;
  st ← scan_parts chapter_slug parts scan_init;
  Ok (prev_chapter st, next_chapter st).

(** ** Ordering and sorting *)

(** [a < b].  Strings are ordered by code point, which on their UTF-8
    bytes is the lexicographic order of [String.ltb]; a [bool] is an
    [int].  Any other pair raises [TypeError] (floats and the ordering of
    two lists are not modelled: no configuration uses them as a sort
    key). *)
Definition py_num (v : pyval) : option Z :=
  match v with
  | PInt n => Some n
  | PBool b => Some (if b then 1%Z else 0%Z)
  | _ => None
  end.

Definition py_lt (a b : pyval) : result bool :=
  match a, b with
  | PStr s, PStr t => Ok (String.ltb s t)
  | _, _ =>
      match py_num a, py_num b with
      | Some m, Some n => Ok (m <? n)%Z
      | _, _ => Raise TypeError
      end
  end.

(** [sorted(xs, key=...)] is a stable ascending sort that only uses [<]
    on the keys, which are computed once, before any comparison.  The
    result of a stable sort does not depend on the algorithm; it is
    written here as an insertion sort on the (key, element) pairs. *)
Fixpoint insert_keyed {A : Type} (x : pyval * A) (l : list (pyval * A))
    : result (list (pyval * A)) :=
  match l with
  | [] => Ok [x]
  | y :: l' =>
      b ← py_lt y.1 x.1;
      if b : bool then (y ::.) <$> insert_keyed x l' else Ok (x :: y :: l')
  end.

Fixpoint sort_keyed {A : Type} (l : list (pyval * A))
    : result (list (pyval * A)) :=
  match l with
  | [] => Ok []
  | x :: l' => s ← sort_keyed l'; insert_keyed x s
  end.

Definition sorted_by {A : Type} (key : A → result pyval) (xs : list A)
    : result (list A) :=
  ks ← mapM key xs;
  s ← sort_keyed (zip ks xs);
  Ok (s.*2).

(** ** Responses *)

(** What a view function returns: the call of the template renderer it
    makes (the renderer itself is outside this module), or a redirect
    with its status code.  [config] is the reference passed as the
    [config=] keyword. *)
Abbreviation loc := nat.

Inductive view_result : Type :=
  | Template (name : string) (config : option loc) (context : list (string * pyval))
  | ErrorTemplate (error : exn) (status_code : Z)
  | Redirect (location : string) (code : Z).

(** The outgoing response as [add_header] sees it.  The [Cache-Control]
    header is kept in parsed form, as [response.cache_control] presents
    it: [None] when the header is absent, otherwise its directives, each
    a bare flag or a [key=value]. *)
Abbreviation directives := (list (string * option string)).

Record response : Type := Response {
  status_code : Z;
  cache_control_header : option directives;
  other_headers : list (string * string)
}.

(** [response.cache_control]: the parsed header, empty when absent. *)
Definition cache_control (r : response) : directives :=
  default [] (cache_control_header r).

(** The callback run after a directive changed: an empty directive set
    removes the header, any other is written back to it. *)
Definition cache_control_on_update (ds : directives) (r : response) : response :=
  {| status_code := status_code r;
     cache_control_header := match ds with [] => None | _ => Some ds end;
     other_headers := other_headers r |}.

Fixpoint directive_set (k : string) (v : option string) (ds : directives)
    : directives :=
  match ds with
  | [] => [(k, v)]
  | (k', v') :: ds' =>
      if String.eqb k k' then (k', v) :: ds' else (k', v') :: directive_set k v ds'
  end.

(** [response.cache_control.<flag> = True] *)
Definition set_flag (k : string) (r : response) : response :=
  cache_control_on_update (directive_set k None (cache_control r)) r.

(** [response.cache_control.max_age = n] *)
Definition set_max_age (n : string) (r : response) : response :=
  cache_control_on_update (directive_set "max-age" (Some n) (cache_control r)) r.

(** The [after_request] hook. *)
Definition add_header (resp : response) : response :=
  if negb (bool_decide (is_Some (cache_control_header resp))) then
    let resp1 :=
      if negb (status_code resp =? 200)%Z && negb (status_code resp =? 304)%Z
      then set_max_age "0" (set_flag "no-cache" (set_flag "no-store" resp))
      else resp in
    if (status_code resp1 =? 200)%Z || (status_code resp1 =? 304)%Z
    then set_max_age "10800" (set_flag "public" resp1)
    else resp1
  else resp.

(** ** Requests, the shared store and the handler monad *)

(** [request.base_url] is the URL of the request without its query
    string: the root of the application followed by [request.path]. *)
Record request : Type := Request {
  url_root : string;
  path : string
}.

Definition base_url (req : request) : string := url_root req ++ path req.

(** What a handler can read and change: the configuration objects, which
    outlive the request; the position in the stream of the random number
    generator; the records written by [logging]. *)
Record world : Type := World {
  store : gmap loc pydict;
  rng_pos : nat;
  log : list string
}.

Definition M (A : Type) : Type := world → result A * world.

#[global] Instance M_ret : MRet M := fun A a w => (Ok a, w).
#[global] Instance M_bind : MBind M := fun A B f m w =>
  match m w with
  | (Ok a, w') => f a w'
  | (Raise e, w') => (Raise e, w')
  end.

Definition lift {A : Type} (r : result A) : M A := fun w => (r, w).

Definition abort {A : Type} (code : Z) : M A :=
  fun w => (Raise (HTTPException code), w).

(** [config[k]] through a reference; a reference to nothing behaves as
    [None], which cannot be subscripted. *)
Definition getitem (config : loc) (k : string) : M pyval := fun w =>
  match store w !! config with
  | Some d => (py_getitem (PDict d) k, w)
  | None => (Raise TypeError, w)
  end.

(** [config[k] = v] through a reference: the object itself is updated. *)
Definition setitem (config : loc) (k : string) (v : pyval) : M unit := fun w =>
  match store w !! config with
  | Some d =>
      (Ok (), {| store := <[config := dict_set k v d]> (store w);
                 rng_pos := rng_pos w; log := log w |})
  | None => (Raise TypeError, w)
  end.

(** [logging.exception(fmt, arg)] with [fmt] ending in [%s]. *)
Definition logging_exception (fmt_prefix arg : string) : M unit := fun w =>
  (Ok (), {| store := store w; rng_pos := rng_pos w;
             log := log w ++ [fmt_prefix ++ arg] |}).

(** [v.items()] *)
Definition py_items (v : pyval) : result pydict :=
  match v with
  | PDict d => Ok d
  | _ => Raise AttributeError
  end.

(** [s[-1]] *)
Fixpoint str_last (s : string) : result ascii :=
  match s with
  | EmptyString => Raise IndexError
  | String c s' =>
      match s' with
      | EmptyString => Ok c
      | String _ _ => str_last s'
      end
  end.

(** [redirect(location)] and the [(response, status)] form of a return
    value, which replaces the status of the response. *)
Definition redirect (location : string) : view_result := Redirect location 302.

Definition with_status (rv : view_result) (code : Z) : view_result :=
  match rv with
  | Redirect location _ => Redirect location code
  | ErrorTemplate e _ => ErrorTemplate e code
  | Template _ _ _ => rv
  end.

(** [x[i], x[j] = x[j], x[i]] *)
Definition swap {A : Type} (x : list A) (i j : nat) : result (list A) :=
  match x !! j, x !! i with
  | Some a, Some b => Ok (<[j := b]> (<[i := a]> x))
  | _, _ => Raise IndexError
  end.

(** The legacy image folders: the route converter
    [regex("[0-2][0-9]_.*")], where [.] is any character but a newline. *)
Definition char_between (lo hi c : ascii) : bool :=
  (nat_of_ascii lo <=? nat_of_ascii c)%nat && (nat_of_ascii c <=? nat_of_ascii hi)%nat.

Definition old_folder_regex (folder : string) : bool :=
  match folder with
  | String a (String b (String c rest)) =>
      char_between "0" "2" a && char_between "0" "9" b && Ascii.eqb c "_"
      && forallb (fun x => negb (Ascii.eqb x "010")) (list_ascii_of_string rest)
  | _ => false
  end.

(** The folder pattern in the words of the specification: a two-digit
    numeric prefix, an underscore and a descriptive suffix. *)
Definition two_digit_prefixed (folder : string) : bool :=
  match folder with
  | String a (String b (String c rest)) =>
      char_between "0" "9" a && char_between "0" "9" b && Ascii.eqb c "_"
      && negb (String.eqb rest "")
  | _ => false
  end.

Section Handlers.

(** The raw output of the random number generator, by position. *)
Variable entropy : nat → nat.

(** [config.get_config]: the loader of the year configurations, which
    returns a reference to the configuration object. *)
Variable get_config : string → M loc.

(** [helpers.convert_old_image_path] *)
Variable convert_old_image_path : string → string.

(** [random.Random._randbelow(n)]: some [j < n] fixed by the state of the
    generator, which advances. *)
Definition randbelow (n : nat) : M nat := fun w =>
  (Ok (entropy (rng_pos w) mod n)%nat,
   {| store := store w; rng_pos := S (rng_pos w); log := log w |}).

(** [random.shuffle(x)]:
    [for i in reversed(range(1, len(x))): j = randbelow(i + 1); swap]. *)
Fixpoint shuffle_from {A : Type} (i : nat) (x : list A) : M (list A) :=
  match i with
  | O => mret x
  | S i' =>
      j ← randbelow (S i);
      x' ← lift (swap x i j);
      shuffle_from i' x'
  end.

Definition shuffle {A : Type} (x : list A) : M (list A) :=
  shuffle_from (length x - 1) x.

Definition contributors (lang year : string) : M view_result :=
  config ← get_config year;
  c ← getitem config "contributors";
  items ← lift (py_items c);
  contributors_list ← shuffle items;
  setitem config "contributors" (PDict (dict_of_items contributors_list));;
  mret (Template (lang ++ "/" ++ year ++ "/contributors.html") (Some config) []).

Definition ebook (lang year : string) : M view_result :=
  config ← get_config year;
  c ← getitem config "contributors";
  items ← lift (py_items c);
  sorted_contributors ← lift (sorted_by (fun items => py_getitem items.2 "name") items);
  setitem config "contributors" (PDict (dict_of_items sorted_contributors));;
  mret (Template (lang ++ "/" ++ year ++ "/ebook.html") (Some config) []).

Definition accessibility_statement (req : request) (lang : string) : M view_result :=
  c ← lift (str_last (base_url req));
  if Ascii.eqb c "/"
  then mret (with_status (redirect ("/" ++ lang ++ "/accessibility-statement")) 301)
  else mret (Template (lang ++ "/2019/accessibility_statement.html") None []).

Definition redirect_old_images (folder image : string) : view_result :=
  with_status
    (redirect ("/static/images/2019/" ++ convert_old_image_path folder ++ "/" ++ image))
    301.

(** The rule [/static/images/2019/<regex(...):folder>/<image>]: [None]
    when the folder does not match, so that the rule does not apply. *)
Definition old_images_rule (folder image : string) : option view_result :=
  if old_folder_regex folder then Some (redirect_old_images folder image) else None.

End Handlers.

(** ** Error handlers *)

Definition bad_request (req : request) (e : exn) : M view_result :=
  logging_exception "An error occurred during a request due to bad request error: " (path req);;
  mret (ErrorTemplate e 400).

Definition page_not_found (req : request) (e : exn) : M view_result :=
  mret (ErrorTemplate e 404).

Definition handle_internal_server_error (req : request) (e : exn) : M view_result :=
  logging_exception "An error occurred during a request due to internal server error: " (path req);;
  mret (ErrorTemplate e 500).

Definition handle_bad_gateway (req : request) (e : exn) : M view_result :=
  logging_exception "An error occurred during a request due to bad gateway: " (path req);;
  mret (ErrorTemplate e 502).

(** The handlers registered with [app.errorhandler]. *)
Definition errorhandler (code : Z) : option (request → exn → M view_result) :=
  if (code =? 400)%Z then Some bad_request
  else if (code =? 404)%Z then Some page_not_found
  else if (code =? 500)%Z then Some handle_internal_server_error
  else if (code =? 502)%Z then Some handle_bad_gateway
  else None.

(** ** Abbreviations and sample data used in the statements below *)

Definition cacheable : directives := [("public", None); ("max-age", Some "10800")].
Definition not_cacheable : directives :=
  [("no-store", None); ("no-cache", None); ("max-age", Some "0")].

Definition is_good_status (code : Z) : bool := (code =? 200)%Z || (code =? 304)%Z.

Definition empty_world : world := World ∅ 0 [].

(** A sample implementation of the folder conversion: the numeric prefix
    is dropped. *)
Definition drop_prefix (folder : string) : string :=
  String.substring 3 (String.length folder - 3) folder.

(** ** Well-shaped outlines *)

(** A chapter record is a todo when it has the key, whatever the value;
    it is named by a slug when its ["slug"] entry is that string. *)
Definition is_todo (c : pydict) : bool := bool_decide (is_Some (dict_get "todo" c)).

Definition has_slug (slug : string) (c : pydict) : bool :=
  py_eq_str (default PNone (dict_get "slug" c)) slug.

(** The shape every configuration file has: the outline is a list of
    parts, each a record whose ["chapters"] entry is a list of chapter
    records.  [outline_of config parts] gives the chapter records of each
    part, in order. *)
Definition part_of (part : pyval) (chapters : list pydict) : Prop :=
  ∃ d, part = PDict d ∧ dict_get "chapters" d = Some (PList (PDict <$> chapters)).

Definition outline_of (config : pyval) (parts : list (list pydict)) : Prop :=
  ∃ d ps, config = PDict d ∧ dict_get "outline" d = Some (PList ps) ∧
          Forall2 part_of ps parts.

(** No chapter of the list that is not a todo is named by the slug; every
    chapter of the list is a todo. *)
Definition unmatched (slug : string) (chs : list pydict) : Prop :=
  Forall (fun c => is_todo c = false → has_slug slug c = false) chs.

Definition todos (chs : list pydict) : Prop :=
  Forall (fun c => is_todo c = true) chs.

(** The last chapter of [chapters] that is not a todo, [dflt] if none. *)
Definition last_nontodo (chapters : list pydict) (dflt : pyval) : pyval :=
  foldl (fun acc c => if is_todo c then acc else PDict c) dflt chapters.

(** A value a walk may return: [None], or a chapter record satisfying [Q]
    that is not a todo. *)
Definition navigable (Q : pydict → Prop) (v : pyval) : Prop :=
  v = PNone ∨ ∃ c, v = PDict c ∧ Q c ∧ is_todo c = false.

(** The two scenarios of the specification. *)
Definition ch (slug : string) : pydict := [("slug", PStr slug)].
Definition ch_todo (slug : string) : pydict :=
  [("slug", PStr slug); ("todo", PBool true)].
Definition mk_part (chapters : list pydict) : pyval :=
  PDict [("title", PStr "Part"); ("chapters", PList (PDict <$> chapters))].
Definition mk_config (parts : list (list pydict)) : pyval :=
  PDict [("outline", PList (mk_part <$> parts)); ("contributors", PDict [])].

(** ** Observing the contributors through a configuration reference *)

(** The items of [config["contributors"]], in iteration order, as any
    request holding the reference [config] sees them. *)
Definition contributors_of (w : world) (config : loc) : option pydict :=
  match store w !! config with
  | Some d =>
      match dict_get "contributors" d with
      | Some (PDict items) => Some items
      | _ => None
      end
  | None => None
  end.

(** Every contributor record has a string under ["name"]. *)
Definition named (items : pydict) : Prop :=
  Forall (fun kv => ∃ s, py_getitem kv.2 "name" = Ok (PStr s)) items.

(** Every key of a keyed list is a string. *)
Definition str_keyed {A : Type} (l : list (pyval * A)) : Prop :=
  Forall (fun p => ∃ s, p.1 = PStr s) l.

(** The exchange of the positions [i] and [j]. *)
Definition transpose (i j k : nat) : nat :=
  if decide (k = i) then j else if decide (k = j) then i else k.

(** A loader that keeps the configuration of 2019 at location 0, a
    generator, and a world with three contributors. *)
Definition sample_get_config (year : string) : M loc :=
  if String.eqb year "2019" then mret 0%nat else lift (Raise (KeyError year)).

Definition sample_entropy (n : nat) : nat := (7 * n + 4)%nat.

Definition zed : string * pyval := ("zed", PDict [("name", PStr "Zed"); ("teams", PList [])]).
Definition amy : string * pyval := ("amy", PDict [("name", PStr "Amy"); ("teams", PList [])]).
Definition bob : string * pyval := ("bob", PDict [("name", PStr "Bob"); ("teams", PList [])]).

Definition sample_config : pydict :=
  [("outline", PList []); ("contributors", PDict [zed; amy; bob]); ("is_live", PBool true)].

Definition sample_world : world := World {[ 0%nat := sample_config ]} 0 [].

(** ** The chapter page *)

Section Pages.

Variable get_config : string → M loc.

(** The object behind a reference, read as a value; a reference to
    nothing is [None]. *)
Definition deref (config : loc) : M pyval := fun w =>
  (Ok (match store w !! config with Some d => PDict d | None => PNone end), w).

Definition chapter (lang year chapter : string) : M view_result :=
  config ← get_config year;
  cv ← deref config;
  pn ← lift (get_chapter_nextprev cv chapter);
  mret (Template (lang ++ "/" ++ year ++ "/chapters/" ++ chapter ++ ".html")
          (Some config) [("prev_chapter", pn.1); ("next_chapter", pn.2)]).

End Pages.

(** ** Notions used to state the further properties *)

(** The chapters of a part that are not todos. *)
Definition written (chs : list pydict) : list pydict :=
  filter (fun c => is_todo c = false) chs.

(** The sort key of a contributor item, and the order the sort
    establishes between neighbours: the later key is not less than the
    earlier one. *)
Definition name_of (kv : string * pyval) : result pyval := py_getitem kv.2 "name".

Definition name_le (a b : string * pyval) : Prop :=
  ∃ ka kb, name_of a = Ok ka ∧ name_of b = Ok kb ∧ py_lt kb ka = Ok false.

Definition key_le {A : Type} (a b : pyval * A) : Prop := py_lt b.1 a.1 = Ok false.

(** A loader without effects: the reference is looked up, the world is
    left as it is. *)
Definition pure_loader (get_config : string → M loc) (year : string) (config : loc) : Prop :=
  ∀ w, get_config year w = (Ok config, w).

(** A world in which one contributor has no name. *)
Definition anon : string * pyval := ("anon", PDict [("teams", PList [])]).

Definition nameless_config : pydict :=
  [("outline", PList []); ("contributors", PDict [amy; anon; bob])].

Definition nameless_world : world := World {[ 0%nat := nameless_config ]} 5 [].

(** A world whose configuration has an outline. *)
Definition outline_config : pydict :=
  [("outline", PList [mk_part [ch "A"; ch_todo "T"]; mk_part [ch "B"; ch "C"]]);
   ("contributors", PDict [zed; amy; bob])].

Definition outline_world : world := World {[ 0%nat := outline_config ]} 0 [].

(** The contributors that bear a given name, in the order of the list. *)
Definition has_name (s : string) (kv : string * pyval) : bool :=
  match name_of kv with
  | Ok k => py_eq_str k s
  | Raise _ => false
  end.

Definition key_is {A : Type} (s : string) (p : pyval * A) : bool := py_eq_str p.1 s.

Definition with_name (s : string) (items : pydict) : pydict :=
  filter (fun kv => has_name s kv = true) items.

(** A world in which two contributors bear the same name. *)
Definition amy2 : string * pyval := ("amy2", PDict [("name", PStr "Amy")]).

Definition twins_config : pydict :=
  [("contributors", PDict [zed; amy2; amy]); ("outline", PList [])].

Definition twins_world : world := World {[ 0%nat := twins_config ]} 0 [].

(** * Properties *)

(** ** The cache policy *)

(** On a response without the header, the hook writes one of the two
    directive lists and nothing else. *)
Lemma add_header_absent (code : Z) (hs : list (string * string)) :
  add_header (Response code None hs)
  = Response code (Some (if is_good_status code then cacheable else not_cacheable)) hs.
Proof.
  unfold add_header, is_good_status; simpl.
  destruct (code =? 200)%Z eqn:E200; destruct (code =? 304)%Z eqn:E304; simpl;
    rewrite ?E200, ?E304; reflexivity.
Qed.

Lemma add_header_present (r : response) (ds : directives) :
  cache_control_header r = Some ds → add_header r = r.
Proof. intros H. unfold add_header. rewrite H. reflexivity. Qed.

(** C5: a response that already carries [Cache-Control] is returned as it
    is; otherwise the directives become [public, max-age=10800] when the
    status is 200 or 304 and [no-store, no-cache, max-age=0] for every other
    status, the status and the other headers being kept. *)
Theorem add_header_policy (r : response) :
  add_header r =
    match cache_control_header r with
    | Some _ => r
    | None =>
        {| status_code := status_code r;
           cache_control_header :=
             Some (if (status_code r =? 200)%Z || (status_code r =? 304)%Z
                   then [("public", None); ("max-age", Some "10800")]
                   else [("no-store", None); ("no-cache", None); ("max-age", Some "0")]);
           other_headers := other_headers r |}
    end.
Proof.
  destruct r as [code [ds|] hs]; simpl.
  - exact (add_header_present (Response code (Some ds) hs) ds eq_refl).
  - apply add_header_absent.
Qed.

(** C6: the hook is idempotent. *)
Theorem add_header_idempotent (r : response) :
  add_header (add_header r) = add_header r.
Proof.
  destruct r as [code [ds|] hs].
  - by rewrite !(add_header_present (Response code (Some ds) hs) ds).
  - rewrite add_header_absent.
    by apply (add_header_present _ (if is_good_status code then cacheable else not_cacheable)).
Qed.

(** ** Error handlers *)

(** C9: each of the statuses 400, 404, 500 and 502 has a handler, which
    returns the error template for that status; the handlers of 400, 500
    and 502 append one record naming the request path to the log, the
    handler of 404 leaves the log as it is. *)
Theorem error_handlers_render_and_log (req : request) (e : exn) (w : world) :
  (errorhandler 400 = Some bad_request ∧
   bad_request req e w =
     (Ok (ErrorTemplate e 400),
      World (store w) (rng_pos w)
        (log w ++ ["An error occurred during a request due to bad request error: "
                   ++ path req]))) ∧
  (errorhandler 404 = Some page_not_found ∧
   page_not_found req e w = (Ok (ErrorTemplate e 404), w)) ∧
  (errorhandler 500 = Some handle_internal_server_error ∧
   handle_internal_server_error req e w =
     (Ok (ErrorTemplate e 500),
      World (store w) (rng_pos w)
        (log w ++ ["An error occurred during a request due to internal server error: "
                   ++ path req]))) ∧
  (errorhandler 502 = Some handle_bad_gateway ∧
   handle_bad_gateway req e w =
     (Ok (ErrorTemplate e 502),
      World (store w) (rng_pos w)
        (log w ++ ["An error occurred during a request due to bad gateway: "
                   ++ path req]))).
Proof. repeat split. Qed.

(** ** Legacy image folders *)

(** C8, as the code has it: when the folder matches [[0-2][0-9]_.*], the
    rule answers with a 301 redirect to the same path with the folder
    converted and the image name kept. *)
Theorem old_images_redirect (convert : string → string) (folder image : string) :
  old_folder_regex folder = true →
  old_images_rule convert folder image
  = Some (Redirect ("/static/images/2019/" ++ convert folder ++ "/" ++ image) 301).
Proof. intros H. unfold old_images_rule. rewrite H. reflexivity. Qed.

Lemma old_images_redirect_witness :
  old_images_rule drop_prefix "07_chart" "fig1.png"
  = Some (Redirect "/static/images/2019/chart/fig1.png" 301).
Proof. apply (old_images_redirect drop_prefix "07_chart" "fig1.png"). reflexivity. Defined.

(** C8, as the specification words it, fails: a folder with a two-digit
    prefix above 29 is not matched by the rule, so no redirect is made. *)
Lemma old_images_prefix_counterexample :
  two_digit_prefixed "35_chart" = true ∧
  old_images_rule drop_prefix "35_chart" "fig1.png" = None.
Proof. split; reflexivity. Qed.

(** ** Accessibility statement *)

Lemma str_last_app (s t : string) :
  t ≠ "" → str_last (s ++ t) = str_last t.
Proof.
  intros Ht. induction s as [|c s IH]; [done|].
  change (String c s ++ t) with (String c (s ++ t)). simpl.
  destruct (s ++ t) eqn:E; [|exact IH].
  destruct s; [by change (t = "") in E | discriminate E].
Qed.

Lemma str_last_app_assoc (s t u : string) :
  str_last (s ++ t ++ u) = str_last ((s ++ t) ++ u).
Proof.
  f_equal. induction s as [|c s IH]; [done|].
  change (String c (s ++ t ++ u) = String c ((s ++ t) ++ u)). by rewrite IH.
Qed.

(** The body of the view answers a path with a trailing slash with a 301
    redirect to the path without it. *)
Lemma accessibility_statement_slash (req : request) (lang : string) (w : world) :
  path req = "/" ++ lang ++ "/accessibility-statement/" →
  accessibility_statement req lang w
  = (Ok (Redirect ("/" ++ lang ++ "/accessibility-statement") 301), w).
Proof.
  intros Hp. unfold accessibility_statement, base_url. rewrite Hp.
  assert (Hl : str_last (url_root req ++ "/" ++ lang ++ "/accessibility-statement/")
               = Ok "/"%char).
  { rewrite !str_last_app_assoc. by rewrite str_last_app. }
  unfold mbind, M_bind, lift. rewrite Hl. reflexivity.
Qed.

(** ** Previous and next chapter *)

Example nextprev_skips_todo :
  get_chapter_nextprev (mk_config [[ch "A"; ch_todo "B"; ch "C"]]) "A"
  = Ok (PNone, PDict (ch "C")).
Proof. reflexivity. Qed.

Example nextprev_last :
  get_chapter_nextprev (mk_config [[ch "A"; ch "B"; ch "C"]]) "C"
  = Ok (PDict (ch "B"), PNone).
Proof. reflexivity. Qed.

Example nextprev_across_parts :
  get_chapter_nextprev (mk_config [[ch "A"; ch_todo "B"]; [ch_todo "C"]; [ch "D"; ch "E"]]) "A"
  = Ok (PNone, PDict (ch "D")).
Proof. reflexivity. Qed.

Ltac result_unfold :=
  unfold mbind, result_bind, fmap, result_fmap, mret, result_ret, not_todo in *.

(** One turn of the inner loop on a chapter record. *)
Lemma scan_chapters_cons (slug : string) (c : pydict) (rest : list pyval) (st : scan) :
  scan_chapters slug (PDict c :: rest) st =
    if is_todo c then scan_chapters slug rest st
    else if found st then Ok (Scan (prev_chapter st) (PDict c) (found st))
    else if has_slug slug c
         then scan_chapters slug rest (Scan (prev_chapter st) (next_chapter st) true)
         else scan_chapters slug rest (Scan (PDict c) (next_chapter st) (found st)).
Proof.
  unfold is_todo, has_slug. simpl. result_unfold. simpl.
  destruct st as [p n f]; simpl.
  destruct (bool_decide (is_Some (dict_get "todo" c))); simpl;
  destruct f; simpl;
  destruct (py_eq_str (default PNone (dict_get "slug" c)) slug); reflexivity.
Qed.

Lemma last_nontodo_cons (c : pydict) (chs : list pydict) (dflt : pyval) :
  last_nontodo (c :: chs) dflt
  = last_nontodo chs (if is_todo c then dflt else PDict c).
Proof. reflexivity. Qed.

Lemma last_nontodo_app (l1 l2 : list pydict) (dflt : pyval) :
  last_nontodo (l1 ++ l2) dflt = last_nontodo l2 (last_nontodo l1 dflt).
Proof. apply foldl_app. Qed.

Lemma last_nontodo_todos (chs : list pydict) (dflt : pyval) :
  todos chs → last_nontodo chs dflt = dflt.
Proof.
  intros H. revert dflt. induction H as [|c chs Hc _ IH]; intros dflt; [done|].
  by rewrite last_nontodo_cons, Hc, IH.
Qed.

Section Walk.

Local Open Scope list_scope.

Variable slug : string.

Lemma todos_unmatched (chs : list pydict) : todos chs → unmatched slug chs.
Proof. intros H. eapply Forall_impl; [exact H|]. simpl. congruence. Qed.

(** Before the match, the inner loop only moves [prev_chapter]. *)
Lemma scan_chapters_unmatched (chs : list pydict) (st : scan) :
  found st = false → unmatched slug chs →
  scan_chapters slug (PDict <$> chs) st
  = Ok (Scan (last_nontodo chs (prev_chapter st)) (next_chapter st) false).
Proof.
  intros Hf H. revert st Hf.
  induction H as [|c chs Hc _ IH]; intros [p n f] Hf; simpl in Hf; subst f.
  - reflexivity.
  - rewrite fmap_cons, scan_chapters_cons, last_nontodo_cons. simpl.
    destruct (is_todo c) eqn:Et.
    + by rewrite IH.
    + rewrite (Hc eq_refl). by rewrite IH.
Qed.

(** Todo chapters change nothing. *)
Lemma scan_chapters_todos (chs : list pydict) (st : scan) :
  todos chs → scan_chapters slug (PDict <$> chs) st = Ok st.
Proof.
  induction 1 as [|c chs Hc _ IH]; [done|].
  by rewrite fmap_cons, scan_chapters_cons, Hc.
Qed.

(** After the match, the first chapter that is not a todo ends the loop. *)
Lemma scan_chapters_next (gap : list pydict) (N : pydict) (post : list pydict) (st : scan) :
  found st = true → todos gap → is_todo N = false →
  scan_chapters slug (PDict <$> (gap ++ N :: post)) st
  = Ok (Scan (prev_chapter st) (PDict N) true).
Proof.
  intros Hf Hg HN.
  induction Hg as [|c gap Hc _ IH]; cbn [fmap list_fmap app].
  - rewrite scan_chapters_cons, HN, Hf. reflexivity.
  - rewrite scan_chapters_cons, Hc. exact IH.
Qed.

(** The match itself. *)
Lemma scan_chapters_match (pre : list pydict) (C : pydict) (rest : list pydict) (st : scan) :
  found st = false → unmatched slug pre → is_todo C = false → has_slug slug C = true →
  scan_chapters slug (PDict <$> (pre ++ C :: rest)) st
  = scan_chapters slug (PDict <$> rest)
      (Scan (last_nontodo pre (prev_chapter st)) (next_chapter st) true).
Proof.
  intros Hf Hp HC Hs. revert st Hf.
  induction Hp as [|c pre Hc _ IH]; intros [p n f] Hf; simpl in Hf; subst f;
    cbn [fmap list_fmap app].
  - by rewrite scan_chapters_cons, HC, Hs.
  - rewrite scan_chapters_cons, last_nontodo_cons. simpl.
    destruct (is_todo c) eqn:Et.
    + by rewrite IH.
    + rewrite (Hc eq_refl). by rewrite IH.
Qed.

(** One turn of the outer loop on a well-shaped part. *)
Lemma scan_parts_cons (part : pyval) (chs : list pydict) (rest : list pyval) (st : scan) :
  part_of part chs →
  scan_parts slug (part :: rest) st =
    match scan_chapters slug (PDict <$> chs) st with
    | Ok st' =>
        if found st' && py_truthy (next_chapter st') then Ok st'
        else scan_parts slug rest st'
    | Raise e => Raise e
    end.
Proof. intros (d & -> & Hd). simpl. rewrite Hd. reflexivity. Qed.

Lemma app_eq_split {A : Type} (l1 l2 pre : list A) (x : A) (post : list A) :
  l1 ++ l2 = pre ++ x :: post →
  (∃ r, l1 = pre ++ x :: r ∧ post = r ++ l2) ∨
  (∃ q, pre = l1 ++ q ∧ l2 = q ++ x :: post).
Proof.
  revert pre. induction l1 as [|a l1 IH]; intros pre H.
  - right. by exists pre.
  - destruct pre as [|b pre]; simpl in H; injection H as -> H.
    + left. by exists l1.
    + apply IH in H as [(r & -> & ->)|(q & -> & ->)]; [left; by exists r|right; by exists q].
Qed.

(** After the match, the outer loop goes on until a part holds a chapter
    that is not a todo. *)
Lemma scan_parts_next (ps : list pyval) (chss : list (list pydict))
    (gap : list pydict) (N : pydict) (post : list pydict) (st : scan) :
  Forall2 part_of ps chss →
  found st = true → py_truthy (next_chapter st) = false →
  concat chss = gap ++ N :: post → todos gap → is_todo N = false → N ≠ [] →
  scan_parts slug ps st = Ok (Scan (prev_chapter st) (PDict N) true).
Proof.
  intros Hps Hf Hn. revert gap.
  induction Hps as [|part chs ps chss Hpart _ IH]; intros gap Hc Hg HN Hne.
  - by destruct gap.
  - rewrite (scan_parts_cons _ _ _ _ Hpart). simpl in Hc.
    apply app_eq_split in Hc as [(r & -> & ->)|(q & -> & Hc)].
    + rewrite scan_chapters_next by done. simpl. by destruct N.
    + apply Forall_app in Hg as [Hg1 Hg2].
      rewrite scan_chapters_todos by done. rewrite Hf, Hn. simpl.
      by apply (IH q).
Qed.

(** Without a match the whole outline is walked. *)
Lemma scan_parts_unmatched (ps : list pyval) (chss : list (list pydict)) (st : scan) :
  Forall2 part_of ps chss →
  found st = false → unmatched slug (concat chss) →
  scan_parts slug ps st
  = Ok (Scan (last_nontodo (concat chss) (prev_chapter st)) (next_chapter st) false).
Proof.
  intros Hps. revert st.
  induction Hps as [|part chs ps chss Hpart _ IH]; intros st Hf Hu.
  - destruct st; simpl in *; by subst.
  - rewrite (scan_parts_cons _ _ _ _ Hpart). simpl in Hu.
    apply Forall_app in Hu as [Hu1 Hu2].
    rewrite scan_chapters_unmatched by done. simpl.
    rewrite IH by done. simpl. by rewrite last_nontodo_app.
Qed.

(** The walk up to the match and on to the next chapter. *)
Lemma scan_parts_match (ps : list pyval) (chss : list (list pydict))
    (pre : list pydict) (C : pydict) (gap : list pydict) (N : pydict)
    (post : list pydict) (st : scan) :
  Forall2 part_of ps chss →
  found st = false → py_truthy (next_chapter st) = false →
  concat chss = pre ++ C :: gap ++ N :: post →
  unmatched slug pre → is_todo C = false → has_slug slug C = true →
  todos gap → is_todo N = false → N ≠ [] →
  scan_parts slug ps st
  = Ok (Scan (last_nontodo pre (prev_chapter st)) (PDict N) true).
Proof.
  intros Hps. revert pre st.
  induction Hps as [|part chs ps chss Hpart Hrest IH];
    intros pre st Hf Hn Hc Hu HC Hs Hg HN Hne.
  - by destruct pre.
  - rewrite (scan_parts_cons _ _ _ _ Hpart). simpl in Hc.
    apply app_eq_split in Hc as [(r & -> & Hc)|(q & -> & Hc)].
    + rewrite scan_chapters_match by done.
      symmetry in Hc. apply app_eq_split in Hc as [(r' & -> & ->)|(q & -> & Hc)].
      * rewrite scan_chapters_next by done. simpl. by destruct N.
      * apply Forall_app in Hg as [Hg1 Hg2].
        rewrite scan_chapters_todos by done. simpl. rewrite Hn.
        by rewrite (scan_parts_next ps chss q N post).
    + apply Forall_app in Hu as [Hu1 Hu2].
      rewrite scan_chapters_unmatched by done. simpl.
      rewrite (IH q) by done. simpl. by rewrite last_nontodo_app.
Qed.

End Walk.

Section Neighbours.

Local Open Scope list_scope.

Lemma get_chapter_nextprev_shaped (config : pyval) (chss : list (list pydict))
    (slug : string) :
  outline_of config chss →
  ∃ ps, Forall2 part_of ps chss ∧
        get_chapter_nextprev config slug =
          match scan_parts slug ps scan_init with
          | Ok st => Ok (prev_chapter st, next_chapter st)
          | Raise e => Raise e
          end.
Proof.
  intros (d & ps & -> & Hd & Hps). exists ps. split; [done|].
  unfold get_chapter_nextprev. simpl. rewrite Hd. reflexivity.
Qed.

Lemma mk_config_shape (parts : list (list pydict)) :
  outline_of (mk_config parts) parts.
Proof.
  eexists _, _. split; [reflexivity|]. split; [reflexivity|].
  induction parts as [|chs parts IH]; constructor; [|exact IH].
  eexists. split; reflexivity.
Qed.

Lemma last_nontodo_spec (l : list pydict) (dflt : pyval) :
  (todos l ∧ last_nontodo l dflt = dflt) ∨
  (∃ pre L post, l = pre ++ L :: post ∧ is_todo L = false ∧ todos post ∧
                 last_nontodo l dflt = PDict L).
Proof.
  revert dflt. induction l as [|c l IH]; intros dflt.
  - left. split; [constructor|reflexivity].
  - rewrite last_nontodo_cons.
    destruct (IH (if is_todo c then dflt else PDict c))
      as [[Ht He]|(pre & L & post & -> & HL & Hp & He)].
    + destruct (is_todo c) eqn:Ec.
      * left. split; [by constructor|done].
      * right. by exists [], c, l.
    + right. by exists (c :: pre), L, post.
Qed.

(** The walk only ever keeps chapters of the list that are not todos. *)
Lemma scan_chapters_navigable (slug : string) (Q : pydict → Prop)
    (chs : list pydict) (st : scan) :
  Forall Q chs →
  navigable Q (prev_chapter st) → navigable Q (next_chapter st) →
  ∃ st', scan_chapters slug (PDict <$> chs) st = Ok st' ∧
         navigable Q (prev_chapter st') ∧ navigable Q (next_chapter st').
Proof.
  intros H. revert st.
  induction H as [|c chs Hc _ IH]; intros st Hp Hn.
  - by exists st.
  - rewrite fmap_cons, scan_chapters_cons.
    destruct (is_todo c) eqn:Et; [by apply IH|].
    assert (navigable Q (PDict c)) by (right; by exists c).
    destruct (found st); [by eexists|].
    destruct (has_slug slug c); by apply IH.
Qed.

Lemma scan_parts_navigable (slug : string) (Q : pydict → Prop)
    (ps : list pyval) (chss : list (list pydict)) (st : scan) :
  Forall2 part_of ps chss → Forall Q (concat chss) →
  navigable Q (prev_chapter st) → navigable Q (next_chapter st) →
  ∃ st', scan_parts slug ps st = Ok st' ∧
         navigable Q (prev_chapter st') ∧ navigable Q (next_chapter st').
Proof.
  intros Hps. revert st.
  induction Hps as [|part chs ps chss Hpart _ IH]; intros st HQ Hp Hn.
  - by exists st.
  - rewrite (scan_parts_cons _ _ _ _ _ Hpart). simpl in HQ.
    apply Forall_app in HQ as [HQ1 HQ2].
    destruct (scan_chapters_navigable slug Q chs st HQ1 Hp Hn) as (st1 & -> & Hp1 & Hn1).
    destruct (found st1 && py_truthy (next_chapter st1)); [by exists st1|by apply IH].
Qed.

(** C2: in a well-shaped outline whose chapters, in the order of the
    parts, are [pre], [P], todos, [C], todos, [N], [post], where [C] is the
    first chapter named by the slug that is not a todo (slugs being unique,
    the only one) and [P], [N] are not todos, the walk returns [P] and [N].
    [N] is not the empty record: a chapter carries at least its slug. *)
Theorem nextprev_neighbours (config : pyval) (chss : list (list pydict))
    (slug : string) (pre : list pydict) (P : pydict) (gap1 : list pydict)
    (C : pydict) (gap2 : list pydict) (N : pydict) (post : list pydict) :
  outline_of config chss →
  concat chss = pre ++ P :: gap1 ++ C :: gap2 ++ N :: post →
  is_todo C = false → has_slug slug C = true →
  unmatched slug (pre ++ [P]) →
  is_todo P = false → todos gap1 →
  is_todo N = false → todos gap2 → N ≠ [] →
  get_chapter_nextprev config slug = Ok (PDict P, PDict N).
Proof.
  intros Ho Hc HC Hs Hu HP Hg1 HN Hg2 Hne.
  destruct (get_chapter_nextprev_shaped config chss slug Ho) as (ps & Hps & ->).
  rewrite (scan_parts_match slug ps chss (pre ++ P :: gap1) C gap2 N post); try done.
  - simpl. rewrite last_nontodo_app, last_nontodo_cons, HP.
    by rewrite last_nontodo_todos.
  - by rewrite Hc, <- app_assoc.
  - change (P :: gap1) with ([P] ++ gap1). rewrite app_assoc.
    apply Forall_app. split; [done|by apply todos_unmatched].
Qed.

Lemma nextprev_neighbours_witness :
  get_chapter_nextprev
    (mk_config [[ch "A"; ch_todo "T1"]; [ch "B"]; [ch_todo "T2"; ch "C"; ch "D"]]) "B"
  = Ok (PDict (ch "A"), PDict (ch "C")).
Proof.
  apply (nextprev_neighbours _ [[ch "A"; ch_todo "T1"]; [ch "B"]; [ch_todo "T2"; ch "C"; ch "D"]]
           "B" [] (ch "A") [ch_todo "T1"] (ch "B") [ch_todo "T2"] (ch "C") [ch "D"]).
  - apply mk_config_shape.
  - reflexivity.
  - reflexivity.
  - reflexivity.
  - repeat constructor.
  - reflexivity.
  - repeat constructor.
  - reflexivity.
  - repeat constructor.
  - discriminate.
Defined.

(** C3: on a well-shaped outline the walk returns, and each of the two
    values it returns is [None] or a chapter of the outline that is not a
    todo. *)
Theorem nextprev_never_todo (config : pyval) (chss : list (list pydict))
    (slug : string) :
  outline_of config chss →
  ∃ p n, get_chapter_nextprev config slug = Ok (p, n) ∧
         navigable (fun c => c ∈ concat chss) p ∧
         navigable (fun c => c ∈ concat chss) n.
Proof.
  intros Ho.
  destruct (get_chapter_nextprev_shaped config chss slug Ho) as (ps & Hps & ->).
  destruct (scan_parts_navigable slug (fun c => c ∈ concat chss) ps chss scan_init Hps)
    as (st & -> & Hp & Hn).
  - by apply Forall_forall.
  - by left.
  - by left.
  - by exists (prev_chapter st), (next_chapter st).
Qed.

Lemma nextprev_never_todo_witness :
  ∃ p n,
    get_chapter_nextprev (mk_config [[ch_todo "A"; ch "B"]; [ch_todo "C"; ch "D"]]) "B"
    = Ok (p, n) ∧
    navigable (fun c => c ∈ concat [[ch_todo "A"; ch "B"]; [ch_todo "C"; ch "D"]]) p ∧
    navigable (fun c => c ∈ concat [[ch_todo "A"; ch "B"]; [ch_todo "C"; ch "D"]]) n.
Proof.
  apply (nextprev_never_todo _ [[ch_todo "A"; ch "B"]; [ch_todo "C"; ch "D"]] "B").
  apply mk_config_shape.
Defined.

(** C4: when no chapter that is not a todo is named by the slug, the walk
    returns no next chapter, and as previous chapter the last chapter of
    the outline that is not a todo, or [None] when all are todos. *)
Theorem nextprev_unmatched (config : pyval) (chss : list (list pydict))
    (slug : string) :
  outline_of config chss →
  unmatched slug (concat chss) →
  ∃ p, get_chapter_nextprev config slug = Ok (p, PNone) ∧
       ((todos (concat chss) ∧ p = PNone) ∨
        (∃ pre L post, concat chss = pre ++ L :: post ∧ is_todo L = false ∧
                       todos post ∧ p = PDict L)).
Proof.
  intros Ho Hu.
  destruct (get_chapter_nextprev_shaped config chss slug Ho) as (ps & Hps & ->).
  rewrite (scan_parts_unmatched slug ps chss scan_init Hps eq_refl Hu). simpl.
  eexists. split; [reflexivity|].
  destruct (last_nontodo_spec (concat chss) PNone) as [[Ht ->]|(pre & L & post & He & HL & Hp & ->)].
  - by left.
  - right. by exists pre, L, post.
Qed.

Lemma nextprev_unmatched_witness :
  ∃ p,
    get_chapter_nextprev (mk_config [[ch "A"; ch_todo "X"]; [ch "B"; ch_todo "C"]]) "X"
    = Ok (p, PNone) ∧
    ((todos (concat [[ch "A"; ch_todo "X"]; [ch "B"; ch_todo "C"]]) ∧ p = PNone) ∨
     (∃ pre L post,
        concat [[ch "A"; ch_todo "X"]; [ch "B"; ch_todo "C"]] = pre ++ L :: post ∧
        is_todo L = false ∧ todos post ∧ p = PDict L)).
Proof.
  apply (nextprev_unmatched _ [[ch "A"; ch_todo "X"]; [ch "B"; ch_todo "C"]] "X").
  - apply mk_config_shape.
  - repeat constructor; discriminate.
Defined.

(** The empty record is the one chapter that does not stop the outer
    loop: it is a false value, so a later part replaces it. *)
Example nextprev_empty_record :
  get_chapter_nextprev (mk_config [[ch "A"; []]; [ch "B"]]) "A"
  = Ok (PNone, PDict (ch "B")).
Proof. reflexivity. Qed.

End Neighbours.

(** ** Reordering the contributors *)

Section Reorder.

Local Open Scope list_scope.

Lemma dict_set_fresh (k : string) (v : pyval) (d : pydict) :
  k ∉ d.*1 → dict_set k v d = d ++ [(k, v)].
Proof.
  induction d as [|[k' v'] d IH]; intros Hk; [done|].
  simpl in *. apply not_elem_of_cons in Hk as [Hne Hk].
  apply String.eqb_neq in Hne. rewrite Hne. by rewrite IH.
Qed.

Lemma dict_get_set_eq (k : string) (v : pyval) (d : pydict) :
  dict_get k (dict_set k v d) = Some v.
Proof.
  induction d as [|[k' v'] d IH]; simpl.
  - by rewrite String.eqb_refl.
  - destruct (String.eqb k k') eqn:E; simpl; rewrite E; [done|exact IH].
Qed.

Lemma dict_get_set_ne (k k' : string) (v : pyval) (d : pydict) :
  k ≠ k' → dict_get k' (dict_set k v d) = dict_get k' d.
Proof.
  intros Hne. induction d as [|[k0 v0] d IH]; simpl.
  - apply String.eqb_neq in Hne. rewrite String.eqb_sym in Hne. by rewrite Hne.
  - destruct (String.eqb k k0) eqn:E; simpl; [|by rewrite IH].
    apply String.eqb_eq in E as <-.
    apply String.eqb_neq in Hne. rewrite String.eqb_sym in Hne. by rewrite Hne.
Qed.

Lemma foldl_dict_set (acc items : pydict) :
  NoDup (acc.*1 ++ items.*1) →
  foldl (fun d kv => dict_set kv.1 kv.2 d) acc items = acc ++ items.
Proof.
  revert acc. induction items as [|[k v] items IH]; intros acc Hnd; simpl.
  - by rewrite app_nil_r.
  - rewrite dict_set_fresh.
    + rewrite IH; [by rewrite <- app_assoc|].
      by rewrite fmap_app, <- app_assoc.
    + simpl in Hnd. apply NoDup_app in Hnd as (_ & Hd & _).
      intros Hin. apply (Hd k Hin). by left.
Qed.

(** A list of pairs with distinct keys is its own dictionary. *)
Lemma dict_of_items_wf (items : pydict) :
  dict_wf items → dict_of_items items = items.
Proof. intros H. unfold dict_of_items. by rewrite foldl_dict_set. Qed.

Lemma dict_wf_perm (items items' : pydict) :
  items' ≡ₚ items → dict_wf items → dict_wf items'.
Proof. unfold dict_wf. intros Hp. by rewrite Hp. Qed.

(** *** The exchange of two elements *)

Lemma transpose_inj (i j : nat) : Inj (=) (=) (transpose i j).
Proof.
  intros a b. unfold transpose.
  repeat case_decide; intros; subst; congruence.
Qed.

Lemma swap_perm {A : Type} (x x' : list A) (i j : nat) :
  swap x i j = Ok x' → x' ≡ₚ x.
Proof.
  unfold swap. destruct (x !! j) as [a|] eqn:Hj; [|done].
  destruct (x !! i) as [b|] eqn:Hi; [|done]. intros [= <-].
  assert (i < length x)%nat by (by eapply lookup_lt_Some).
  assert (j < length x)%nat by (by eapply lookup_lt_Some).
  apply Permutation_inj. split; [by rewrite !length_insert|].
  exists (transpose i j). split; [apply transpose_inj|].
  intros k. unfold transpose. repeat case_decide; subst.
  - destruct (decide (j = i)) as [->|Hne].
    + rewrite list_lookup_insert_eq by (by rewrite length_insert). congruence.
    + rewrite list_lookup_insert_ne by done.
      by rewrite list_lookup_insert_eq.
  - by rewrite list_lookup_insert_eq by (by rewrite length_insert).
  - by rewrite !list_lookup_insert_ne.
Qed.

Lemma swap_in_range {A : Type} (x : list A) (i j : nat) :
  (i < length x)%nat → (j < length x)%nat → ∃ x', swap x i j = Ok x'.
Proof.
  intros Hi Hj. unfold swap.
  destruct (lookup_lt_is_Some_2 x j Hj) as [a ->].
  destruct (lookup_lt_is_Some_2 x i Hi) as [b ->]. by eexists.
Qed.

(** The shuffle returns, yields a permutation and only advances the
    generator. *)
Lemma shuffle_from_spec {A : Type} (entropy : nat → nat) (i : nat) (x : list A) (w : world) :
  (i < length x)%nat ∨ i = 0%nat →
  ∃ x', x' ≡ₚ x ∧
        shuffle_from entropy i x w
        = (Ok x', World (store w) (rng_pos w + i) (log w)).
Proof.
  revert x w. induction i as [|i IH]; intros x w Hi.
  - exists x. split; [done|]. destruct w as [s r l]. simpl.
    unfold mret, M_ret. by rewrite Nat.add_0_r.
  - destruct Hi as [Hi|]; [|done].
    assert (Hj : (entropy (rng_pos w) mod S (S i) < length x)%nat).
    { pose proof (Nat.mod_upper_bound (entropy (rng_pos w)) (S (S i))). lia. }
    destruct (swap_in_range x (S i) _ Hi Hj) as [x1 Hx1].
    pose proof (swap_perm _ _ _ _ Hx1) as Hp.
    destruct (IH x1 (World (store w) (S (rng_pos w)) (log w))) as (x' & Hp' & He).
    { left. rewrite (Permutation_length Hp). lia. }
    exists x'. split; [by rewrite Hp'|].
    cbn [shuffle_from]. unfold mbind, M_bind, randbelow, lift. rewrite Hx1.
    rewrite He. simpl. do 2 f_equal. lia.
Qed.

Lemma shuffle_spec {A : Type} (entropy : nat → nat) (x : list A) (w : world) :
  ∃ x', x' ≡ₚ x ∧
        shuffle entropy x w
        = (Ok x', World (store w) (rng_pos w + (length x - 1)) (log w)).
Proof.
  apply shuffle_from_spec. destruct x; simpl; [by right|left; lia].
Qed.

(** *** The sort *)

Lemma insert_keyed_perm {A : Type} (x : pyval * A) (l s : list (pyval * A)) :
  insert_keyed x l = Ok s → s ≡ₚ x :: l.
Proof.
  revert s. induction l as [|y l IH]; intros s; simpl.
  - by intros [= <-].
  - result_unfold. destruct (py_lt y.1 x.1) as [[]|]; [|by intros [= <-]|done].
    destruct (insert_keyed x l) as [s'|]; [|done]. intros [= <-].
    rewrite (IH s' eq_refl). apply perm_swap.
Qed.

Lemma sort_keyed_perm {A : Type} (l s : list (pyval * A)) :
  sort_keyed l = Ok s → s ≡ₚ l.
Proof.
  revert s. induction l as [|x l IH]; intros s; simpl.
  - by intros [= <-].
  - result_unfold. destruct (sort_keyed l) as [s'|]; [|done].
    intros H%insert_keyed_perm. by rewrite H, (IH s' eq_refl).
Qed.

Lemma mapM_result_length {A B : Type} (f : A → result B) (l : list A) (k : list B) :
  mapM f l = Ok k → length k = length l.
Proof.
  revert k. induction l as [|x l IH]; intros k; simpl.
  - by intros [= <-].
  - result_unfold. destruct (f x); [|done].
    destruct (mapM f l) as [k'|]; [|done]. intros [= <-].
    simpl. by rewrite (IH k' eq_refl).
Qed.

Lemma sorted_by_perm {A : Type} (key : A → result pyval) (xs ys : list A) :
  sorted_by key xs = Ok ys → ys ≡ₚ xs.
Proof.
  unfold sorted_by. result_unfold.
  destruct (mapM key xs) as [ks|] eqn:Hk; [|done].
  destruct (sort_keyed (zip ks xs)) as [s|] eqn:Hs; [|done]. intros [= <-].
  rewrite (sort_keyed_perm _ _ Hs).
  rewrite snd_zip; [done|]. by rewrite (mapM_result_length _ _ _ Hk).
Qed.

Lemma insert_keyed_str {A : Type} (x : pyval * A) (l : list (pyval * A)) :
  (∃ u, x.1 = PStr u) → str_keyed l →
  ∃ s, insert_keyed x l = Ok s ∧ str_keyed s.
Proof.
  intros [u Hu] Hl. induction Hl as [|y l Hy Hl IH]; simpl.
  - exists [x]. split; [done|]. constructor; [by exists u|constructor].
  - destruct Hy as [t Hy].
    result_unfold. rewrite Hy, Hu. simpl.
    destruct (String.ltb t u).
    + destruct IH as (s & -> & Hs). eexists. split; [done|].
      constructor; [by exists t|done].
    + eexists. split; [done|].
      constructor; [by exists u|]. constructor; [by exists t|done].
Qed.

Lemma sort_keyed_str {A : Type} (l : list (pyval * A)) :
  str_keyed l → ∃ s, sort_keyed l = Ok s ∧ str_keyed s.
Proof.
  induction 1 as [|x l Hx Hl IH]; simpl.
  - exists []. split; [done|constructor].
  - destruct IH as (s & -> & Hs). result_unfold.
    by apply insert_keyed_str.
Qed.

Lemma mapM_str_keys {A : Type} (key : A → result pyval) (xs : list A) :
  Forall (fun x => ∃ s, key x = Ok (PStr s)) xs →
  ∃ ks, mapM key xs = Ok ks ∧ str_keyed (zip ks xs).
Proof.
  induction 1 as [|x xs Hx _ IH]; simpl.
  - exists []. split; [done|constructor].
  - destruct Hx as [s Hx]. destruct IH as (ks & Hks & Hz).
    exists (PStr s :: ks). result_unfold. rewrite Hx, Hks.
    split; [done|]. constructor; [by exists s|done].
Qed.

(** Sorting by name returns when every name is a string. *)
Lemma sorted_by_str {A : Type} (key : A → result pyval) (xs : list A) :
  Forall (fun x => ∃ s, key x = Ok (PStr s)) xs →
  ∃ ys, sorted_by key xs = Ok ys.
Proof.
  intros H. destruct (mapM_str_keys key xs H) as (ks & Hks & Hz).
  destruct (sort_keyed_str _ Hz) as (s & Hs & _).
  unfold sorted_by. result_unfold. rewrite Hks, Hs. by eexists.
Qed.

End Reorder.

Section ReorderHandlers.

Variable entropy : nat → nat.
Variable get_config : string → M loc.
Variables lang year : string.

(** The state in which the handler starts, the reference the loader
    returns and the configuration object it refers to. *)
Variables w w1 : world.
Variable config : loc.
Variable d : pydict.
Variable items : pydict.
Hypothesis loaded : get_config year w = (Ok config, w1).
Hypothesis stored : store w1 !! config = Some d.
Hypothesis has_contributors : dict_get "contributors" d = Some (PDict items).

Lemma contributors_run :
  ∃ items', items' ≡ₚ items ∧
    contributors entropy get_config lang year w
    = (Ok (Template (lang ++ "/" ++ year ++ "/contributors.html") (Some config) []),
       World (<[config := dict_set "contributors" (PDict (dict_of_items items')) d]> (store w1))
             (rng_pos w1 + (length items - 1)) (log w1)).
Proof.
  destruct (shuffle_spec entropy items w1) as (items' & Hp & Hs).
  exists items'. split; [done|].
  unfold contributors, mbind, M_bind. rewrite loaded.
  unfold getitem. rewrite stored. simpl. rewrite has_contributors.
  unfold lift. simpl. rewrite Hs.
  unfold setitem. simpl. rewrite stored. reflexivity.
Qed.

Lemma ebook_run (r : view_result) (w' : world) :
  ebook get_config lang year w = (Ok r, w') →
  ∃ items', items' ≡ₚ items ∧
    r = Template (lang ++ "/" ++ year ++ "/ebook.html") (Some config) [] ∧
    w' = World (<[config := dict_set "contributors" (PDict (dict_of_items items')) d]> (store w1))
               (rng_pos w1) (log w1).
Proof.
  unfold ebook, mbind, M_bind. rewrite loaded.
  unfold getitem. rewrite stored. simpl. rewrite has_contributors.
  unfold lift. simpl.
  destruct (sorted_by _ items) as [items'|] eqn:Hs; [|done].
  unfold setitem. simpl. rewrite stored. intros [= <- <-].
  exists items'. by split; [eapply sorted_by_perm|].
Qed.

Lemma ebook_returns :
  named items → ∃ r w', ebook get_config lang year w = (Ok r, w').
Proof.
  intros Hn.
  destruct (sorted_by_str (fun kv : string * pyval => py_getitem kv.2 "name") items Hn)
    as [items' Hs].
  unfold ebook, mbind, M_bind. rewrite loaded.
  unfold getitem. rewrite stored. simpl. rewrite has_contributors.
  unfold lift. simpl. rewrite Hs.
  unfold setitem. simpl. rewrite stored. by eexists _, _.
Qed.

Lemma contributors_of_rebound (items' : pydict) (n : nat) (l : list string) :
  contributors_of
    (World (<[config := dict_set "contributors" (PDict items') d]> (store w1)) n l) config
  = Some items'.
Proof.
  unfold contributors_of. simpl. rewrite lookup_insert_eq.
  by rewrite dict_get_set_eq.
Qed.

End ReorderHandlers.

Section ReorderMore.

Variable entropy : nat → nat.
Variable get_config : string → M loc.
Variables lang year : string.
Variables w w1 : world.
Variable config : loc.
Hypothesis loaded : get_config year w = (Ok config, w1).

Variable d : pydict.
Variable items : pydict.
Hypothesis stored : store w1 !! config = Some d.
Hypothesis has_contributors : dict_get "contributors" d = Some (PDict items).

Lemma ebook_unfold :
  ebook get_config lang year w =
    match sorted_by name_of items with
    | Ok items' =>
        (Ok (Template (lang ++ "/" ++ year ++ "/ebook.html") (Some config) []),
         World (<[config := dict_set "contributors" (PDict (dict_of_items items')) d]>
                  (store w1)) (rng_pos w1) (log w1))
    | Raise e => (Raise e, w1)
    end.
Proof.
  unfold ebook, mbind, M_bind. rewrite loaded.
  unfold getitem. rewrite stored. simpl. rewrite has_contributors.
  unfold lift. simpl. change (fun items0 : string * pyval => py_getitem items0.2 "name")
    with name_of.
  destruct (sorted_by name_of items) as [items'|]; [|done].
  unfold setitem. simpl. by rewrite stored.
Qed.

Lemma contributors_unfold (items' : pydict) :
  (shuffle entropy items w1).1 = Ok items' →
  contributors entropy get_config lang year w
  = (Ok (Template (lang ++ "/" ++ year ++ "/contributors.html") (Some config) []),
     World (<[config := dict_set "contributors" (PDict (dict_of_items items')) d]>
              (store w1)) (rng_pos w1 + (length items - 1)) (log w1)).
Proof.
  destruct (shuffle_spec entropy items w1) as (x' & _ & Hsh).
  rewrite Hsh. simpl. intros [= <-].
  unfold contributors, mbind, M_bind. rewrite loaded.
  unfold getitem. rewrite stored. simpl. rewrite has_contributors.
  unfold lift. simpl. rewrite Hsh.
  unfold setitem. simpl. by rewrite stored.
Qed.

(** Assigning another list of items changes the object behind the
    reference. *)
Lemma rebound_differs (items' : pydict) (m : gmap loc pydict) :
  items' ≠ items →
  <[config := dict_set "contributors" (PDict items') d]> m !! config ≠ Some d.
Proof.
  intros Hne. rewrite lookup_insert_eq. intros [= He].
  apply Hne. pose proof (dict_get_set_eq "contributors" (PDict items') d) as Hg.
  rewrite He, has_contributors in Hg. by injection Hg.
Qed.

End ReorderMore.


(** C1, as the code has it: both handlers compute the new order on a copy
    of the items (the shuffled list, the list sorted by name) and then
    assign the reordered mapping to the ["contributors"] entry of the
    configuration object the loader returned.  That assignment is the only
    change to the store; the new order is what is read through the
    reference of the loader, and whenever it differs from the old one the
    object behind the reference is no longer the one that was loaded. *)
Theorem reorder_rebinds_contributors (entropy : nat → nat)
    (get_config : string → M loc) (lang year : string) (w w1 : world)
    (config : loc) (d items : pydict) :
  get_config year w = (Ok config, w1) →
  store w1 !! config = Some d →
  dict_get "contributors" d = Some (PDict items) →
  dict_wf items →
  (∃ r w' items',
     contributors entropy get_config lang year w = (Ok r, w') ∧
     (shuffle entropy items w1).1 = Ok items' ∧
     store w' = <[config := dict_set "contributors" (PDict items') d]> (store w1) ∧
     contributors_of w' config = Some items' ∧
     (items' ≠ items → store w' !! config ≠ store w1 !! config)) ∧
  (∀ r w', ebook get_config lang year w = (Ok r, w') →
     ∃ items',
       sorted_by name_of items = Ok items' ∧
       store w' = <[config := dict_set "contributors" (PDict items') d]> (store w1) ∧
       contributors_of w' config = Some items' ∧
       (items' ≠ items → store w' !! config ≠ store w1 !! config)) ∧
  (named items → ∃ r w', ebook get_config lang year w = (Ok r, w')).
Proof.
  intros Hl Hs Hc Hwf. split; [|split].
  - destruct (shuffle_spec entropy items w1) as (items' & Hp & Hsh).
    assert (Hd : dict_of_items items' = items')
      by (by apply dict_of_items_wf; eapply dict_wf_perm).
    assert (Hsh' : (shuffle entropy items w1).1 = Ok items') by (by rewrite Hsh).
    rewrite (contributors_unfold entropy get_config lang year w w1 config Hl d items
               Hs Hc items' Hsh'), Hd.
    eexists _, _, items'. split; [done|]. split; [done|]. simpl.
    split; [done|]. split; [by apply contributors_of_rebound|].
    intros Hne. rewrite Hs. by apply (rebound_differs config d items Hc).
  - intros r w'.
    rewrite (ebook_unfold get_config lang year w w1 config Hl d items Hs Hc).
    destruct (sorted_by name_of items) as [items'|] eqn:Hsort; [|done].
    assert (Hd : dict_of_items items' = items').
    { apply dict_of_items_wf. eapply dict_wf_perm; [by eapply sorted_by_perm|done]. }
    rewrite Hd. intros [= _ <-]. exists items'. simpl.
    split; [done|]. split; [done|]. split; [by apply contributors_of_rebound|].
    intros Hne. rewrite Hs. by apply (rebound_differs config d items Hc).
  - by apply (ebook_returns get_config lang year w w1 config d items).
Qed.

Lemma reorder_rebinds_contributors_witness :
  (∃ r w' items',
     contributors sample_entropy sample_get_config "en" "2019" sample_world = (Ok r, w') ∧
     (shuffle sample_entropy [zed; amy; bob] sample_world).1 = Ok items' ∧
     store w' = <[0%nat := dict_set "contributors" (PDict items') sample_config]>
                  (store sample_world) ∧
     contributors_of w' 0%nat = Some items' ∧
     (items' ≠ [zed; amy; bob] → store w' !! 0%nat ≠ store sample_world !! 0%nat)) ∧
  (∀ r w', ebook sample_get_config "en" "2019" sample_world = (Ok r, w') →
     ∃ items',
       sorted_by name_of [zed; amy; bob] = Ok items' ∧
       store w' = <[0%nat := dict_set "contributors" (PDict items') sample_config]>
                    (store sample_world) ∧
       contributors_of w' 0%nat = Some items' ∧
       (items' ≠ [zed; amy; bob] → store w' !! 0%nat ≠ store sample_world !! 0%nat)) ∧
  (named [zed; amy; bob] →
   ∃ r w', ebook sample_get_config "en" "2019" sample_world = (Ok r, w')).
Proof.
  apply (reorder_rebinds_contributors sample_entropy sample_get_config "en" "2019"
           sample_world sample_world 0%nat sample_config [zed; amy; bob]).
  - reflexivity.
  - reflexivity.
  - reflexivity.
  - apply (bool_decide_unpack (dict_wf [zed; amy; bob])). reflexivity.
Defined.

(** C1, as the specification words it, fails: after the ebook handler ran,
    the configuration object behind the reference the loader returned has
    its contributors in another order. *)
Lemma ebook_config_counterexample :
  contributors_of sample_world 0%nat = Some [zed; amy; bob] ∧
  contributors_of (ebook sample_get_config "en" "2019" sample_world).2 0%nat
  = Some [amy; bob; zed] ∧
  store (ebook sample_get_config "en" "2019" sample_world).2 !! 0%nat
  ≠ store sample_world !! 0%nat.
Proof.
  split; [reflexivity|]. split; [reflexivity|].
  intros H. vm_compute in H. discriminate H.
Qed.

(** C10: the mapping either handler leaves under ["contributors"] has
    exactly the pairs of the original one, in some order.  The contributors
    handler always returns; the ebook handler returns when every record has
    a string as its name. *)
Theorem reorder_is_permutation (entropy : nat → nat)
    (get_config : string → M loc) (lang year : string) (w w1 : world)
    (config : loc) (d items : pydict) :
  get_config year w = (Ok config, w1) →
  store w1 !! config = Some d →
  dict_get "contributors" d = Some (PDict items) →
  dict_wf items →
  (∃ r w' items',
     contributors entropy get_config lang year w = (Ok r, w') ∧
     contributors_of w' config = Some items' ∧ items' ≡ₚ items) ∧
  (∀ r w', ebook get_config lang year w = (Ok r, w') →
     ∃ items', contributors_of w' config = Some items' ∧ items' ≡ₚ items) ∧
  (named items → ∃ r w', ebook get_config lang year w = (Ok r, w')).
Proof.
  intros Hl Hs Hc Hwf. split; [|split].
  - destruct (contributors_run entropy get_config lang year w w1 config d items Hl Hs Hc)
      as (items' & Hp & ->).
    eexists _, _, items'. split; [done|].
    rewrite (dict_of_items_wf items') by (by eapply dict_wf_perm).
    split; [|done]. by apply contributors_of_rebound.
  - intros r w' He.
    destruct (ebook_run get_config lang year w w1 config d items Hl Hs Hc r w' He)
      as (items' & Hp & _ & ->).
    exists items'.
    rewrite (dict_of_items_wf items') by (by eapply dict_wf_perm).
    split; [|done]. by apply contributors_of_rebound.
  - by apply (ebook_returns get_config lang year w w1 config d items).
Qed.

Lemma reorder_is_permutation_witness :
  (∃ r w' items',
     contributors sample_entropy sample_get_config "en" "2019" sample_world = (Ok r, w') ∧
     contributors_of w' 0%nat = Some items' ∧ items' ≡ₚ [zed; amy; bob]) ∧
  (∀ r w', ebook sample_get_config "en" "2019" sample_world = (Ok r, w') →
     ∃ items', contributors_of w' 0%nat = Some items' ∧ items' ≡ₚ [zed; amy; bob]) ∧
  (named [zed; amy; bob] →
   ∃ r w', ebook sample_get_config "en" "2019" sample_world = (Ok r, w')).
Proof.
  apply (reorder_is_permutation sample_entropy sample_get_config "en" "2019"
           sample_world sample_world 0%nat sample_config [zed; amy; bob]).
  - reflexivity.
  - reflexivity.
  - reflexivity.
  - apply (bool_decide_unpack (dict_wf [zed; amy; bob])). reflexivity.
Defined.

Example contributors_shuffled :
  contributors_of (contributors sample_entropy sample_get_config "en" "2019" sample_world).2 0%nat
  = Some [zed; bob; amy].
Proof. reflexivity. Qed.

(** * Further properties *)

(** ** The walk over the outline *)

Section WalkMore.

Local Open Scope list_scope.

Variable slug : string.

(** Todo chapters can be taken out of a part. *)
Lemma scan_chapters_written (chs : list pydict) (st : scan) :
  scan_chapters slug (PDict <$> written chs) st
  = scan_chapters slug (PDict <$> chs) st.
Proof.
  revert st. induction chs as [|c chs IH]; intros st; [done|].
  rewrite fmap_cons, scan_chapters_cons. unfold written in *.
  destruct (is_todo c) eqn:Et.
  - rewrite filter_cons_False by congruence. apply IH.
  - rewrite filter_cons_True by done.
    rewrite fmap_cons, scan_chapters_cons, Et.
    destruct (found st); [done|]. destruct (has_slug slug c); apply IH.
Qed.

Lemma scan_parts_written (ps ps' : list pyval) (chss : list (list pydict)) (st : scan) :
  Forall2 part_of ps chss → Forall2 part_of ps' (written <$> chss) →
  scan_parts slug ps' st = scan_parts slug ps st.
Proof.
  intros H. revert ps' st.
  induction H as [|part chs ps chss Hpart _ IH]; intros ps' st H'.
  - by inversion H'; subst.
  - rewrite fmap_cons in H'. inversion H' as [|part' ? ps1 ? Hpart' Hrest]; subst.
    rewrite (scan_parts_cons _ _ _ _ _ Hpart), (scan_parts_cons _ _ _ _ _ Hpart').
    rewrite scan_chapters_written.
    destruct (scan_chapters slug (PDict <$> chs) st) as [st1|]; [|done].
    destruct (found st1 && py_truthy (next_chapter st1)); [done|by apply IH].
Qed.

(** Todo chapters alone change nothing, whatever the state. *)
Lemma scan_parts_todos (ps : list pyval) (chss : list (list pydict)) (st : scan) :
  Forall2 part_of ps chss → todos (concat chss) → scan_parts slug ps st = Ok st.
Proof.
  intros H. induction H as [|part chs ps chss Hpart _ IH]; intros Ht; [done|].
  simpl in Ht. apply Forall_app in Ht as [Ht1 Ht2].
  rewrite (scan_parts_cons _ _ _ _ _ Hpart), scan_chapters_todos by done.
  destruct (found st && py_truthy (next_chapter st)); [done|by apply IH].
Qed.

(** The match with nothing but todos after it. *)
Lemma scan_parts_match_end (ps : list pyval) (chss : list (list pydict))
    (pre : list pydict) (C : pydict) (rest : list pydict) (st : scan) :
  Forall2 part_of ps chss →
  found st = false →
  concat chss = pre ++ C :: rest →
  unmatched slug pre → is_todo C = false → has_slug slug C = true → todos rest →
  scan_parts slug ps st
  = Ok (Scan (last_nontodo pre (prev_chapter st)) (next_chapter st) true).
Proof.
  intros Hps. revert pre st.
  induction Hps as [|part chs ps chss Hpart Hrest IH];
    intros pre st Hf Hc Hu HC Hs Ht.
  - by destruct pre.
  - rewrite (scan_parts_cons _ _ _ _ _ Hpart). simpl in Hc.
    apply app_eq_split in Hc as [(r & -> & ->)|(q & -> & Hc)].
    + apply Forall_app in Ht as [Ht1 Ht2].
      rewrite scan_chapters_match, scan_chapters_todos by done. simpl.
      destruct (py_truthy (next_chapter st)); [done|].
      by rewrite (scan_parts_todos ps chss).
    + apply Forall_app in Hu as [Hu1 Hu2].
      rewrite scan_chapters_unmatched by done. simpl.
      rewrite (IH q) by done. simpl. by rewrite last_nontodo_app.
Qed.

(** Parts behind those that are walked: they are reached only if the
    loop was not left. *)
Lemma scan_parts_app (ps junk : list pyval) (st : scan) :
  found st && py_truthy (next_chapter st) = false →
  scan_parts slug (ps ++ junk) st =
    match scan_parts slug ps st with
    | Ok st' =>
        if found st' && py_truthy (next_chapter st') then Ok st'
        else scan_parts slug junk st'
    | Raise e => Raise e
    end.
Proof.
  revert st. induction ps as [|part ps IH]; intros st Hst; simpl.
  - by rewrite Hst.
  - result_unfold.
    destruct (py_getitem part "chapters") as [cs|]; [|done].
    destruct (py_iter cs) as [chapters|]; [|done].
    destruct (scan_chapters slug chapters st) as [st1|]; [|done].
    destruct (found st1 && py_truthy (next_chapter st1)) eqn:E.
    + by rewrite E.
    + by apply IH.
Qed.

(** With chapters that are not empty records, leaving the inner loop and
    leaving the outer loop coincide. *)
Lemma scan_chapters_app (l1 : list pydict) (st : scan) :
  Forall (fun c => c ≠ []) l1 → py_truthy (next_chapter st) = false →
  ∃ st1, scan_chapters slug (PDict <$> l1) st = Ok st1 ∧
    ((found st1 && py_truthy (next_chapter st1) = true ∧
      ∀ k, scan_chapters slug ((PDict <$> l1) ++ k) st = Ok st1) ∨
     (py_truthy (next_chapter st1) = false ∧
      ∀ k, scan_chapters slug ((PDict <$> l1) ++ k) st = scan_chapters slug k st1)).
Proof.
  intros H. revert st. induction H as [|c l1 Hc _ IH]; intros st Hn.
  - exists st. split; [done|]. right. by split.
  - rewrite fmap_cons. cbn [app].
    setoid_rewrite scan_chapters_cons.
    destruct (is_todo c); [by apply IH|].
    destruct (found st) eqn:Hf.
    + eexists. split; [done|]. left. split; [|done]. simpl. by destruct c.
    + destruct (has_slug slug c); by apply IH.
Qed.

(** The nested loops are one loop over the chapters of all parts. *)
Lemma scan_parts_flat (ps : list pyval) (chss : list (list pydict)) (st : scan) :
  Forall2 part_of ps chss →
  Forall (fun c => c ≠ []) (concat chss) → py_truthy (next_chapter st) = false →
  scan_parts slug ps st = scan_chapters slug (PDict <$> concat chss) st.
Proof.
  intros H. revert st. induction H as [|part chs ps chss Hpart _ IH]; intros st Hne Hn.
  - done.
  - simpl in Hne. apply Forall_app in Hne as [Hne1 Hne2].
    rewrite (scan_parts_cons _ _ _ _ _ Hpart). simpl.
    rewrite fmap_app.
    destruct (scan_chapters_app chs st Hne1 Hn) as (st1 & -> & [[Hb Hl]|[Hb Hl]]).
    + by rewrite Hb, Hl.
    + rewrite Hb, andb_false_r, Hl. by apply IH.
Qed.

End WalkMore.

Section NeighboursMore.

Local Open Scope list_scope.

(** X1: chapters marked todo are invisible to the walk: an outline and
    the outline with the todo chapters taken out of every part give the same
    answer for every slug. *)
Theorem nextprev_todos_invisible (config config' : pyval)
    (chss : list (list pydict)) (slug : string) :
  outline_of config chss → outline_of config' (written <$> chss) →
  get_chapter_nextprev config' slug = get_chapter_nextprev config slug.
Proof.
  intros Ho Ho'.
  destruct (get_chapter_nextprev_shaped config chss slug Ho) as (ps & Hps & ->).
  destruct (get_chapter_nextprev_shaped config' _ slug Ho') as (ps' & Hps' & ->).
  by rewrite (scan_parts_written slug ps ps' chss).
Qed.

Lemma nextprev_todos_invisible_witness :
  get_chapter_nextprev (mk_config [[ch "A"]; []; [ch "C"; ch "D"]]) "C"
  = get_chapter_nextprev
      (mk_config [[ch "A"; ch_todo "T1"]; [ch_todo "C"]; [ch "C"; ch_todo "T2"; ch "D"]]) "C".
Proof.
  apply (nextprev_todos_invisible _ _
           [[ch "A"; ch_todo "T1"]; [ch_todo "C"]; [ch "C"; ch_todo "T2"; ch "D"]] "C").
  - apply mk_config_shape.
  - apply (mk_config_shape [[ch "A"]; []; [ch "C"; ch "D"]]).
Defined.

(** X2: when no chapter is the empty record, the grouping into parts does
    not matter: two outlines with the same chapters in the same order give
    the same answer. *)
Theorem nextprev_flatten (c1 c2 : pyval) (chss1 chss2 : list (list pydict))
    (slug : string) :
  outline_of c1 chss1 → outline_of c2 chss2 →
  concat chss1 = concat chss2 →
  Forall (fun c => c ≠ []) (concat chss1) →
  get_chapter_nextprev c1 slug = get_chapter_nextprev c2 slug.
Proof.
  intros H1 H2 He Hne.
  destruct (get_chapter_nextprev_shaped c1 chss1 slug H1) as (ps1 & Hps1 & ->).
  destruct (get_chapter_nextprev_shaped c2 chss2 slug H2) as (ps2 & Hps2 & ->).
  rewrite (scan_parts_flat slug ps1 chss1) by done.
  rewrite (scan_parts_flat slug ps2 chss2) by (by rewrite <- ?He).
  by rewrite He.
Qed.

Lemma nextprev_flatten_witness :
  get_chapter_nextprev (mk_config [[ch "A"; ch "B"]; [ch_todo "T"; ch "C"]]) "B"
  = get_chapter_nextprev (mk_config [[ch "A"]; [ch "B"; ch_todo "T"]; []; [ch "C"]]) "B".
Proof.
  apply (nextprev_flatten _ _ [[ch "A"; ch "B"]; [ch_todo "T"; ch "C"]]
           [[ch "A"]; [ch "B"; ch_todo "T"]; []; [ch "C"]] "B").
  - apply mk_config_shape.
  - apply mk_config_shape.
  - reflexivity.
  - repeat constructor; discriminate.
Defined.

(** X3: the first written chapter has no previous chapter: when only
    todos precede the chapter the slug names, the walk returns [None] and
    the next chapter that is not a todo. *)
Theorem nextprev_at_start (config : pyval) (chss : list (list pydict))
    (slug : string) (pre : list pydict) (C : pydict) (gap : list pydict)
    (N : pydict) (post : list pydict) :
  outline_of config chss →
  concat chss = pre ++ C :: gap ++ N :: post →
  todos pre → is_todo C = false → has_slug slug C = true →
  todos gap → is_todo N = false → N ≠ [] →
  get_chapter_nextprev config slug = Ok (PNone, PDict N).
Proof.
  intros Ho Hc Hp HC Hs Hg HN Hne.
  destruct (get_chapter_nextprev_shaped config chss slug Ho) as (ps & Hps & ->).
  rewrite (scan_parts_match slug ps chss pre C gap N post); try done.
  - simpl. by rewrite last_nontodo_todos.
  - by apply todos_unmatched.
Qed.

Lemma nextprev_at_start_witness :
  get_chapter_nextprev (mk_config [[ch_todo "T"; ch "A"]; [ch_todo "U"]; [ch "B"]]) "A"
  = Ok (PNone, PDict (ch "B")).
Proof.
  apply (nextprev_at_start _ [[ch_todo "T"; ch "A"]; [ch_todo "U"]; [ch "B"]] "A"
           [ch_todo "T"] (ch "A") [ch_todo "U"] (ch "B") []).
  - apply mk_config_shape.
  - reflexivity.
  - repeat constructor.
  - reflexivity.
  - reflexivity.
  - repeat constructor.
  - reflexivity.
  - discriminate.
Defined.

(** X4: the last written chapter has no next chapter: when only todos
    follow the chapter the slug names, the walk goes through the whole
    outline and returns [None] as next chapter, with the last chapter
    before it that is not a todo (if any) as previous chapter. *)
Theorem nextprev_at_end (config : pyval) (chss : list (list pydict))
    (slug : string) (pre : list pydict) (C : pydict) (rest : list pydict) :
  outline_of config chss →
  concat chss = pre ++ C :: rest →
  unmatched slug pre → is_todo C = false → has_slug slug C = true →
  todos rest →
  get_chapter_nextprev config slug = Ok (last_nontodo pre PNone, PNone).
Proof.
  intros Ho Hc Hu HC Hs Ht.
  destruct (get_chapter_nextprev_shaped config chss slug Ho) as (ps & Hps & ->).
  by rewrite (scan_parts_match_end slug ps chss pre C rest).
Qed.

Lemma nextprev_at_end_witness :
  get_chapter_nextprev (mk_config [[ch "A"; ch_todo "T"]; [ch "B"]; [ch_todo "U"]]) "B"
  = Ok (PDict (ch "A"), PNone).
Proof.
  apply (nextprev_at_end _ [[ch "A"; ch_todo "T"]; [ch "B"]; [ch_todo "U"]] "B"
           [ch "A"; ch_todo "T"] (ch "B") [ch_todo "U"]).
  - apply mk_config_shape.
  - reflexivity.
  - repeat constructor; discriminate.
  - reflexivity.
  - reflexivity.
  - repeat constructor.
Defined.

(** X5: the walk stops at the next chapter: whatever follows the part in
    which it is found is not looked at, so that values there that are no
    parts at all raise nothing. *)
Theorem nextprev_stops_at_next (d : pydict) (ps junk : list pyval)
    (chss : list (list pydict)) (slug : string) (pre : list pydict)
    (C : pydict) (gap : list pydict) (N : pydict) (post : list pydict) :
  dict_get "outline" d = Some (PList (ps ++ junk)) →
  Forall2 part_of ps chss →
  concat chss = pre ++ C :: gap ++ N :: post →
  unmatched slug pre → is_todo C = false → has_slug slug C = true →
  todos gap → is_todo N = false → N ≠ [] →
  get_chapter_nextprev (PDict d) slug = Ok (last_nontodo pre PNone, PDict N).
Proof.
  intros Hd Hps Hc Hu HC Hs Hg HN Hne.
  unfold get_chapter_nextprev. simpl. rewrite Hd. simpl.
  rewrite scan_parts_app by done.
  rewrite (scan_parts_match slug ps chss pre C gap N post) by done.
  simpl. by destruct N.
Qed.

Lemma nextprev_stops_at_next_witness :
  get_chapter_nextprev
    (PDict [("outline",
             PList ([mk_part [ch "A"; ch "B"]; mk_part [ch "C"]] ++ [PInt 3; PNone]))]) "B"
  = Ok (PDict (ch "A"), PDict (ch "C")).
Proof.
  apply (nextprev_stops_at_next _ [mk_part [ch "A"; ch "B"]; mk_part [ch "C"]] [PInt 3; PNone]
           [[ch "A"; ch "B"]; [ch "C"]] "B" [ch "A"] (ch "B") [] (ch "C") []).
  - reflexivity.
  - repeat constructor; by eexists.
  - reflexivity.
  - repeat constructor; discriminate.
  - reflexivity.
  - reflexivity.
  - constructor.
  - reflexivity.
  - discriminate.
Defined.

(** X6: a part without the ["chapters"] entry raises [KeyError] when the
    walk reaches it before the slug was matched, whatever comes after
    it. *)
Theorem nextprev_missing_chapters (d b : pydict) (ps rest : list pyval)
    (chss : list (list pydict)) (slug : string) :
  dict_get "outline" d = Some (PList (ps ++ PDict b :: rest)) →
  Forall2 part_of ps chss → unmatched slug (concat chss) →
  dict_get "chapters" b = None →
  get_chapter_nextprev (PDict d) slug = Raise (KeyError "chapters").
Proof.
  intros Hd Hps Hu Hb.
  unfold get_chapter_nextprev. simpl. rewrite Hd. simpl.
  rewrite scan_parts_app by done.
  rewrite (scan_parts_unmatched slug ps chss) by done.
  simpl. by rewrite Hb.
Qed.

Lemma nextprev_missing_chapters_witness :
  get_chapter_nextprev
    (PDict [("outline",
             PList ([mk_part [ch "A"]] ++ PDict [("title", PStr "II")] :: [mk_part [ch "B"]]))])
    "B"
  = Raise (KeyError "chapters").
Proof.
  apply (nextprev_missing_chapters _ [("title", PStr "II")] [mk_part [ch "A"]]
           [mk_part [ch "B"]] [[ch "A"]] "B").
  - reflexivity.
  - repeat constructor; by eexists.
  - repeat constructor; discriminate.
  - reflexivity.
Defined.

End NeighboursMore.

(** ** The cache policy, continued *)

(** X7: every response leaves the hook with a [Cache-Control] header, and
    the hook changes neither the status nor the other headers. *)
Theorem add_header_always_sets (r : response) :
  is_Some (cache_control_header (add_header r)) ∧
  status_code (add_header r) = status_code r ∧
  other_headers (add_header r) = other_headers r.
Proof.
  destruct r as [code [ds|] hs].
  - by rewrite (add_header_present (Response code (Some ds) hs) ds).
  - rewrite add_header_absent. simpl. by split; [eexists|].
Qed.

(** ** The sort by name *)

Section Sorting.

Local Open Scope list_scope.

Lemma string_ltb_asym (s t : string) :
  String.ltb s t = true → String.ltb t s = false.
Proof.
  unfold String.ltb. rewrite (String.compare_antisym t s).
  by destruct (String.compare s t).
Qed.

Lemma py_lt_asym (a b : pyval) : py_lt a b = Ok true → py_lt b a = Ok false.
Proof.
  destruct a as [|ba|na|sa|la|da], b as [|bb|nb|sb|lb|db]; simpl; try done;
    intros [= H]; f_equal; try (by apply string_ltb_asym);
    try destruct ba; try destruct bb; lia.
Qed.

Lemma insert_keyed_hd {A : Type} (x y : pyval * A) (l s : list (pyval * A)) :
  insert_keyed x l = Ok s → key_le y x → HdRel key_le y l → HdRel key_le y s.
Proof.
  destruct l as [|z l]; simpl.
  - intros [= <-] Hx _. by constructor.
  - result_unfold. destruct (py_lt z.1 x.1) as [[]|]; [| |done].
    + destruct (insert_keyed x l) as [s'|]; [|done].
      intros [= <-] _ Hz. constructor. by inversion Hz.
    + intros [= <-] Hx _. by constructor.
Qed.

Lemma insert_keyed_sorted {A : Type} (x : pyval * A) (l s : list (pyval * A)) :
  Sorted key_le l → insert_keyed x l = Ok s → Sorted key_le s.
Proof.
  intros Hl. revert s. induction Hl as [|z l Hl IH Hz]; intros s; simpl.
  - intros [= <-]. by repeat constructor.
  - result_unfold. destruct (py_lt z.1 x.1) as [[]|] eqn:E; [| |done].
    + destruct (insert_keyed x l) as [s'|] eqn:Es; [|done].
      intros [= <-]. constructor; [by apply IH|].
      apply (insert_keyed_hd x z l s' Es); [|done].
      by apply py_lt_asym.
    + intros [= <-]. constructor; [by constructor|]. by constructor.
Qed.

Lemma sort_keyed_sorted {A : Type} (l s : list (pyval * A)) :
  sort_keyed l = Ok s → Sorted key_le s.
Proof.
  revert s. induction l as [|x l IH]; intros s; simpl.
  - intros [= <-]. constructor.
  - result_unfold. destruct (sort_keyed l) as [s'|]; [|done].
    apply insert_keyed_sorted. by apply IH.
Qed.

(** A sorted list is left as it is. *)
Lemma sort_keyed_id {A : Type} (l : list (pyval * A)) :
  Sorted key_le l → sort_keyed l = Ok l.
Proof.
  induction 1 as [|x l Hl IH Hx]; simpl; [done|].
  rewrite IH. result_unfold.
  destruct Hx as [|y l Hxy]; simpl; [done|].
  unfold key_le in Hxy. by rewrite Hxy.
Qed.

Lemma mapM_zip_keys (xs : list (string * pyval)) (ks : list pyval) :
  mapM name_of xs = Ok ks → Forall (fun p => name_of p.2 = Ok p.1) (zip ks xs).
Proof.
  revert ks. induction xs as [|x xs IH]; intros ks; simpl.
  - intros [= <-]. constructor.
  - result_unfold. destruct (name_of x) as [k|] eqn:Ek; [|done].
    destruct (mapM name_of xs) as [ks'|]; [|done]. intros [= <-].
    constructor; [done|by apply IH].
Qed.

Lemma mapM_keys_back (s : list (pyval * (string * pyval))) :
  Forall (fun p => name_of p.2 = Ok p.1) s → mapM name_of (s.*2) = Ok (s.*1).
Proof.
  induction 1 as [|p s Hp _ IH]; simpl; [done|].
  result_unfold. by rewrite Hp, IH.
Qed.

Lemma sorted_names (s : list (pyval * (string * pyval))) :
  Forall (fun p => name_of p.2 = Ok p.1) s → Sorted key_le s → Sorted name_le (s.*2).
Proof.
  intros Hk Hs. induction Hs as [|p s Hs IH Hp]; simpl; [constructor|].
  inversion Hk as [|? ? Hkp Hks]; subst.
  constructor; [by apply IH|].
  destruct Hp as [|q s Hpq]; simpl; constructor.
  inversion Hks as [|? ? Hkq _]; subst.
  by exists p.1, q.1.
Qed.

(** What a successful sort by name returns: a keyed list that is sorted
    and carries the name of each item. *)
Lemma sorted_by_name_inv (xs ys : list (string * pyval)) :
  sorted_by name_of xs = Ok ys →
  ∃ s, ys = s.*2 ∧ Forall (fun p => name_of p.2 = Ok p.1) s ∧ Sorted key_le s.
Proof.
  unfold sorted_by. result_unfold.
  destruct (mapM name_of xs) as [ks|] eqn:Hk; [|done].
  destruct (sort_keyed (zip ks xs)) as [s|] eqn:Hs; [|done]. intros [= <-].
  exists s. split; [done|]. split; [|by eapply sort_keyed_sorted].
  rewrite (sort_keyed_perm _ _ Hs). by apply mapM_zip_keys.
Qed.

Lemma sorted_by_name_sorted (xs ys : list (string * pyval)) :
  sorted_by name_of xs = Ok ys → Sorted name_le ys.
Proof.
  intros (s & -> & Hk & Hs)%sorted_by_name_inv. by apply sorted_names.
Qed.

Lemma sorted_by_name_idem (xs ys : list (string * pyval)) :
  sorted_by name_of xs = Ok ys → sorted_by name_of ys = Ok ys.
Proof.
  intros (s & -> & Hk & Hs)%sorted_by_name_inv.
  unfold sorted_by. rewrite (mapM_keys_back s Hk).
  change (Ok s.*1 ≫= ?f) with (f s.*1). cbv beta.
  by rewrite zip_fst_snd, (sort_keyed_id s Hs).
Qed.

(** The first item without a usable name decides the exception. *)
Lemma sorted_by_name_raise (pre : list (string * pyval)) (kv : string * pyval)
    (post : list (string * pyval)) (e : exn) :
  named pre → name_of kv = Raise e →
  sorted_by name_of (pre ++ kv :: post) = Raise e.
Proof.
  intros Hp He. unfold sorted_by.
  assert (Hm : mapM name_of (pre ++ kv :: post) = Raise e).
  { induction Hp as [|x pre [t Hx] _ IH]; simpl; result_unfold.
    - by rewrite He.
    - change (name_of x) with (py_getitem x.2 "name"). by rewrite Hx, IH. }
  result_unfold. by rewrite Hm.
Qed.

Lemma dict_set_idem (k : string) (v : pyval) (d : pydict) :
  dict_set k v (dict_set k v d) = dict_set k v d.
Proof.
  induction d as [|[k' v'] d IH]; simpl.
  - by rewrite String.eqb_refl.
  - destruct (String.eqb k k') eqn:E; simpl; rewrite E; [done|by rewrite IH].
Qed.

Lemma dict_set_keys (k : string) (v : pyval) (d : pydict) :
  is_Some (dict_get k d) → (dict_set k v d).*1 = d.*1.
Proof.
  induction d as [|[k' v'] d IH]; simpl.
  - by intros [? ?].
  - destruct (String.eqb k k') eqn:E; simpl; [done|].
    intros H. f_equal. by apply IH.
Qed.

End Sorting.


(** ** The handlers that reorder the contributors, continued *)

(** X8: after the ebook handler returned, the contributors of the
    configuration are in ascending order of their names: no name is less
    than the one before it. *)
Theorem ebook_sorts_by_name (get_config : string → M loc) (lang year : string)
    (w w1 : world) (config : loc) (d items : pydict) (r : view_result) (w' : world) :
  get_config year w = (Ok config, w1) →
  store w1 !! config = Some d →
  dict_get "contributors" d = Some (PDict items) →
  dict_wf items →
  ebook get_config lang year w = (Ok r, w') →
  ∃ items', contributors_of w' config = Some items' ∧ Sorted name_le items'.
Proof.
  intros Hl Hs Hc Hwf.
  rewrite (ebook_unfold get_config lang year w w1 config Hl d items Hs Hc).
  destruct (sorted_by name_of items) as [items'|] eqn:Hsort; [|done].
  intros [= _ <-]. exists items'.
  rewrite (dict_of_items_wf items')
    by (eapply dict_wf_perm; [by eapply sorted_by_perm|done]).
  split; [by apply contributors_of_rebound|by eapply sorted_by_name_sorted].
Qed.

Lemma ebook_sorts_by_name_witness :
  ∃ items', contributors_of (ebook sample_get_config "en" "2019" sample_world).2 0%nat
            = Some items' ∧ Sorted name_le items'.
Proof.
  apply (ebook_sorts_by_name sample_get_config "en" "2019" sample_world sample_world
           0%nat sample_config [zed; amy; bob]
           (Template "en/2019/ebook.html" (Some 0%nat) [])
           (ebook sample_get_config "en" "2019" sample_world).2).
  - reflexivity.
  - reflexivity.
  - reflexivity.
  - apply (bool_decide_unpack (dict_wf [zed; amy; bob])). reflexivity.
  - reflexivity.
Defined.

(** X9: the ebook handler is idempotent on the shared configuration: with
    a loader that only looks the reference up, a second run returns the
    same page and leaves the world exactly as the first run left it. *)
Theorem ebook_idempotent (get_config : string → M loc) (lang year : string)
    (w : world) (config : loc) (d items : pydict) (r : view_result) (w' : world) :
  pure_loader get_config year config →
  store w !! config = Some d →
  dict_get "contributors" d = Some (PDict items) →
  dict_wf items →
  ebook get_config lang year w = (Ok r, w') →
  ebook get_config lang year w' = (Ok r, w').
Proof.
  intros Hl Hs Hc Hwf.
  rewrite (ebook_unfold get_config lang year w w config (Hl w) d items Hs Hc).
  destruct (sorted_by name_of items) as [items'|] eqn:Hsort; [|done].
  intros [= <- <-].
  assert (Hd : dict_of_items items' = items').
  { apply dict_of_items_wf. eapply dict_wf_perm; [by eapply sorted_by_perm|done]. }
  rewrite Hd.
  rewrite (ebook_unfold get_config lang year _ _ config (Hl _)
             (dict_set "contributors" (PDict items') d) items').
  - rewrite (sorted_by_name_idem items items' Hsort). simpl.
    by rewrite Hd, dict_set_idem, insert_insert_eq.
  - simpl. by rewrite lookup_insert_eq.
  - by rewrite dict_get_set_eq.
Qed.

Lemma sample_loader_pure : pure_loader sample_get_config "2019" 0%nat.
Proof. intros w. reflexivity. Qed.

Lemma ebook_idempotent_witness :
  ebook sample_get_config "en" "2019" (ebook sample_get_config "en" "2019" sample_world).2
  = (Ok (Template "en/2019/ebook.html" (Some 0%nat) []),
     (ebook sample_get_config "en" "2019" sample_world).2).
Proof.
  apply (ebook_idempotent sample_get_config "en" "2019" sample_world 0%nat
           sample_config [zed; amy; bob]).
  - apply sample_loader_pure.
  - reflexivity.
  - reflexivity.
  - apply (bool_decide_unpack (dict_wf [zed; amy; bob])). reflexivity.
  - reflexivity.
Defined.

(** X11: the ebook handler fails on a contributor without a usable name:
    it raises what the lookup of the name raises for the first such
    contributor ([KeyError] for a record without the key) and leaves the
    configuration as it was. *)
Theorem ebook_missing_name (get_config : string → M loc) (lang year : string)
    (w w1 : world) (config : loc) (d pre post : pydict) (kv : string * pyval)
    (e : exn) :
  get_config year w = (Ok config, w1) →
  store w1 !! config = Some d →
  dict_get "contributors" d = Some (PDict (pre ++ kv :: post)%list) →
  named pre → py_getitem kv.2 "name" = Raise e →
  ebook get_config lang year w = (Raise e, w1).
Proof.
  intros Hl Hs Hc Hp He.
  rewrite (ebook_unfold get_config lang year w w1 config Hl d _ Hs Hc).
  by rewrite (sorted_by_name_raise pre kv post e Hp He).
Qed.

Lemma ebook_missing_name_witness :
  ebook sample_get_config "en" "2019" nameless_world
  = (Raise (KeyError "name"), nameless_world).
Proof.
  apply (ebook_missing_name sample_get_config "en" "2019" nameless_world nameless_world
           0%nat nameless_config [amy] [bob] anon).
  - reflexivity.
  - reflexivity.
  - reflexivity.
  - repeat constructor. by exists "Amy".
  - reflexivity.
Defined.

(** X12: reordering the contributors does not disturb the rest of the
    configuration: after either handler returned, the configuration object
    has the same keys in the same order, every entry but ["contributors"]
    is as before, and the chapter walk gives the same answers. *)
Theorem reorder_keeps_navigation (entropy : nat → nat)
    (get_config : string → M loc) (lang year : string) (w w1 : world)
    (config : loc) (d items : pydict) (r : view_result) (w' : world) :
  get_config year w = (Ok config, w1) →
  store w1 !! config = Some d →
  dict_get "contributors" d = Some (PDict items) →
  contributors entropy get_config lang year w = (Ok r, w') ∨
  ebook get_config lang year w = (Ok r, w') →
  ∃ d', store w' !! config = Some d' ∧ d'.*1 = d.*1 ∧
        (∀ k, k ≠ "contributors" → dict_get k d' = dict_get k d) ∧
        (∀ slug, get_chapter_nextprev (PDict d') slug
                 = get_chapter_nextprev (PDict d) slug).
Proof.
  intros Hl Hs Hc Hrun.
  assert (∃ v, store w' !! config = Some (dict_set "contributors" v d)) as [v Hv].
  { destruct Hrun as [H|H].
    - destruct (contributors_run entropy get_config lang year w w1 config d items Hl Hs Hc)
        as (items' & _ & He).
      rewrite He in H. injection H as _ <-. eexists. simpl. by rewrite lookup_insert_eq.
    - destruct (ebook_run get_config lang year w w1 config d items Hl Hs Hc r w' H)
        as (items' & _ & _ & ->).
      eexists. simpl. by rewrite lookup_insert_eq. }
  exists (dict_set "contributors" v d). split; [done|].
  split; [apply dict_set_keys; by rewrite Hc|].
  assert (Hk : ∀ k, k ≠ "contributors" →
                 dict_get k (dict_set "contributors" v d) = dict_get k d).
  { intros k Hne. by apply dict_get_set_ne. }
  split; [done|].
  intros slug. unfold get_chapter_nextprev, py_getitem. by rewrite Hk.
Qed.

Lemma reorder_keeps_navigation_witness :
  ∃ d', store (ebook sample_get_config "en" "2019" outline_world).2 !! 0%nat = Some d' ∧
        d'.*1 = outline_config.*1 ∧
        (∀ k, k ≠ "contributors" → dict_get k d' = dict_get k outline_config) ∧
        (∀ slug, get_chapter_nextprev (PDict d') slug
                 = get_chapter_nextprev (PDict outline_config) slug).
Proof.
  apply (reorder_keeps_navigation sample_entropy sample_get_config "en" "2019"
           outline_world outline_world 0%nat outline_config [zed; amy; bob]
           (Template "en/2019/ebook.html" (Some 0%nat) [])).
  - reflexivity.
  - reflexivity.
  - reflexivity.
  - right. reflexivity.
Defined.

(** ** The accessibility statement, continued *)

(** X13: the redirect does not loop: whenever the view answers with a
    redirect, a request to the location it names, on any host, is answered
    with the page. *)
Theorem accessibility_redirect_is_final (req : request) (lang : string) (w : world)
    (location : string) (code : Z) (root : string) :
  accessibility_statement req lang w = (Ok (Redirect location code), w) →
  accessibility_statement (Request root location) lang w
  = (Ok (Template (lang ++ "/2019/accessibility_statement.html") None []), w).
Proof.
  unfold accessibility_statement at 1. unfold mbind, M_bind, lift.
  destruct (str_last (base_url req)) as [c|]; [|done].
  destruct (Ascii.eqb c "/"); [|done]. intros [= <- _].
  unfold accessibility_statement, base_url, mbind, M_bind, lift. simpl.
  rewrite !str_last_app_assoc. by rewrite str_last_app.
Qed.

Lemma accessibility_redirect_is_final_witness :
  accessibility_statement (Request "https://almanac.httparchive.org" "/ja/accessibility-statement")
    "ja" empty_world
  = (Ok (Template "ja/2019/accessibility_statement.html" None []), empty_world).
Proof.
  apply (accessibility_redirect_is_final
           (Request "http://localhost:8080" "/ja/accessibility-statement/") "ja" empty_world
           "/ja/accessibility-statement" 301 "https://almanac.httparchive.org").
  reflexivity.
Defined.

(** ** The chapter page *)

(** X14: the chapter view reads the outline of the configuration the
    loader returns and changes nothing: on a well-shaped outline it
    returns the chapter template with the two values of the walk in its
    context, each [None] or a chapter of the outline that is not a todo,
    and the world is the one the loader left. *)
Theorem chapter_page (get_config : string → M loc) (lang year slug : string)
    (w w1 : world) (config : loc) (d : pydict) (chss : list (list pydict)) :
  get_config year w = (Ok config, w1) →
  store w1 !! config = Some d →
  outline_of (PDict d) chss →
  ∃ p n,
    get_chapter_nextprev (PDict d) slug = Ok (p, n) ∧
    chapter get_config lang year slug w
    = (Ok (Template (lang ++ "/" ++ year ++ "/chapters/" ++ slug ++ ".html")
             (Some config) [("prev_chapter", p); ("next_chapter", n)]), w1) ∧
    navigable (fun c => c ∈ concat chss) p ∧
    navigable (fun c => c ∈ concat chss) n.
Proof.
  intros Hl Hs Ho.
  destruct (get_chapter_nextprev_shaped (PDict d) chss slug Ho) as (ps & Hps & He).
  destruct (scan_parts_navigable slug (fun c => c ∈ concat chss) ps chss scan_init Hps)
    as (st & Hst & Hp & Hn).
  - by apply Forall_forall.
  - by left.
  - by left.
  - rewrite Hst in He. exists (prev_chapter st), (next_chapter st).
    split; [done|]. split; [|done].
    unfold chapter, mbind, M_bind, deref, lift. rewrite Hl, Hs. simpl.
    by rewrite He.
Qed.

Lemma chapter_page_witness :
  ∃ p n,
    get_chapter_nextprev (PDict outline_config) "B" = Ok (p, n) ∧
    chapter sample_get_config "en" "2019" "B" outline_world
    = (Ok (Template "en/2019/chapters/B.html" (Some 0%nat)
             [("prev_chapter", p); ("next_chapter", n)]), outline_world) ∧
    navigable (fun c => c ∈ concat [[ch "A"; ch_todo "T"]; [ch "B"; ch "C"]]) p ∧
    navigable (fun c => c ∈ concat [[ch "A"; ch_todo "T"]; [ch "B"; ch "C"]]) n.
Proof.
  apply (chapter_page sample_get_config "en" "2019" "B" outline_world outline_world
           0%nat outline_config [[ch "A"; ch_todo "T"]; [ch "B"; ch "C"]]).
  - reflexivity.
  - reflexivity.
  - eexists _, _. split; [reflexivity|]. split; [reflexivity|].
    repeat constructor; by eexists.
Defined.

(** ** The walk around the target *)

Section Around.

Local Open Scope list_scope.

Variable slug : string.

(** After the match the walk keeps [prev_chapter] and can only put a
    later chapter that is not a todo into [next_chapter]. *)
Lemma scan_chapters_found (l : list pydict) (st : scan) :
  found st = true →
  ∃ st', scan_chapters slug (PDict <$> l) st = Ok st' ∧ found st' = true ∧
         prev_chapter st' = prev_chapter st ∧
         (next_chapter st' = next_chapter st ∨
          ∃ c, c ∈ l ∧ is_todo c = false ∧ next_chapter st' = PDict c).
Proof.
  intros Hf. induction l as [|c l IH].
  - exists st. by repeat split; [..|left].
  - rewrite fmap_cons, scan_chapters_cons, Hf.
    destruct (is_todo c) eqn:Et.
    + destruct IH as (st' & -> & Hf' & Hp & [Hn|(c' & Hin & Hc' & Hn)]);
        exists st'; repeat split; try done; [by left|].
      right. exists c'. by repeat split; [right|..].
    + eexists. repeat split; try done. right. exists c. by repeat split; [left|..].
Qed.

Lemma scan_parts_found (ps : list pyval) (chss : list (list pydict)) (st : scan) :
  Forall2 part_of ps chss → found st = true →
  ∃ st', scan_parts slug ps st = Ok st' ∧ found st' = true ∧
         prev_chapter st' = prev_chapter st ∧
         (next_chapter st' = next_chapter st ∨
          ∃ c, c ∈ concat chss ∧ is_todo c = false ∧ next_chapter st' = PDict c).
Proof.
  intros H. revert st. induction H as [|part chs ps chss Hpart _ IH]; intros st Hf.
  - exists st. by repeat split; [..|left].
  - rewrite (scan_parts_cons _ _ _ _ _ Hpart).
    destruct (scan_chapters_found chs st Hf) as (st1 & -> & Hf1 & Hp1 & Hn1).
    assert (Hn1' : next_chapter st1 = next_chapter st ∨
              ∃ c, c ∈ concat (chs :: chss) ∧ is_todo c = false ∧ next_chapter st1 = PDict c).
    { destruct Hn1 as [?|(c & Hin & ? & ?)]; [by left|right].
      exists c. repeat split; try done. simpl. apply elem_of_app. by left. }
    destruct (found st1 && py_truthy (next_chapter st1)).
    + by exists st1.
    + destruct (IH st1 Hf1) as (st2 & -> & Hf2 & Hp2 & Hn2).
      exists st2. repeat split; try done; [congruence|].
      destruct Hn2 as [Hn2|(c & Hin & ? & ?)]; [by rewrite Hn2|right].
      exists c. repeat split; try done. simpl. apply elem_of_app. by right.
Qed.

Lemma scan_parts_around (ps : list pyval) (chss : list (list pydict))
    (pre : list pydict) (C : pydict) (rest : list pydict) (st : scan) :
  Forall2 part_of ps chss →
  found st = false →
  concat chss = pre ++ C :: rest →
  unmatched slug pre → is_todo C = false → has_slug slug C = true →
  ∃ st', scan_parts slug ps st = Ok st' ∧
         prev_chapter st' = last_nontodo pre (prev_chapter st) ∧
         (next_chapter st' = next_chapter st ∨
          ∃ c, c ∈ rest ∧ is_todo c = false ∧ next_chapter st' = PDict c).
Proof.
  intros Hps. revert pre st.
  induction Hps as [|part chs ps chss Hpart Hrest IH]; intros pre st Hf Hc Hu HC Hs.
  - by destruct pre.
  - rewrite (scan_parts_cons _ _ _ _ _ Hpart). simpl in Hc.
    apply app_eq_split in Hc as [(r & -> & ->)|(q & -> & Hc)].
    + rewrite scan_chapters_match by done.
      destruct (scan_chapters_found r
                  (Scan (last_nontodo pre (prev_chapter st)) (next_chapter st) true) eq_refl)
        as (st1 & -> & Hf1 & Hp1 & Hn1). simpl in Hp1, Hn1.
      assert (Hn1' : next_chapter st1 = next_chapter st ∨
                ∃ c, c ∈ r ++ concat chss ∧ is_todo c = false ∧ next_chapter st1 = PDict c).
      { destruct Hn1 as [?|(c & Hin & ? & ?)]; [by left|right].
        exists c. repeat split; try done. apply elem_of_app. by left. }
      destruct (found st1 && py_truthy (next_chapter st1)); [by exists st1|].
      destruct (scan_parts_found ps chss st1 Hrest Hf1) as (st2 & -> & _ & Hp2 & Hn2).
      exists st2. repeat split; try done; [congruence|].
      destruct Hn2 as [Hn2|(c & Hin & ? & ?)]; [by rewrite Hn2|right].
      exists c. repeat split; try done. apply elem_of_app. by right.
    + apply Forall_app in Hu as [Hu1 Hu2].
      rewrite scan_chapters_unmatched by done. simpl.
      destruct (IH q (Scan (last_nontodo chs (prev_chapter st)) (next_chapter st) false))
        as (st' & -> & Hp & Hn); try done.
      exists st'. repeat split; try done. simpl in Hp. by rewrite last_nontodo_app.
Qed.

End Around.

(** X16: previous comes from before the target and next from after it:
    on every well-shaped outline in which [C] is the first chapter named
    by the slug that is not a todo, the walk returns as previous chapter
    the last chapter before [C] that is not a todo ([None] if there is
    none), and as next chapter [None] or a chapter after [C] that is not a
    todo. *)
Theorem nextprev_around_target (config : pyval) (chss : list (list pydict))
    (slug : string) (pre : list pydict) (C : pydict) (rest : list pydict) :
  outline_of config chss →
  concat chss = (pre ++ C :: rest)%list →
  unmatched slug pre → is_todo C = false → has_slug slug C = true →
  ∃ n, get_chapter_nextprev config slug = Ok (last_nontodo pre PNone, n) ∧
       navigable (fun c => c ∈ rest) n.
Proof.
  intros Ho Hc Hu HC Hs.
  destruct (get_chapter_nextprev_shaped config chss slug Ho) as (ps & Hps & ->).
  destruct (scan_parts_around slug ps chss pre C rest scan_init Hps eq_refl Hc Hu HC Hs)
    as (st & -> & Hp & Hn).
  exists (next_chapter st). rewrite Hp. split; [done|].
  destruct Hn as [Hn|(c & Hin & Hc' & Hn)]; [by left|right]. by exists c.
Qed.

Lemma nextprev_around_target_witness :
  ∃ n, get_chapter_nextprev (mk_config [[ch "A"; []]; [ch "B"]]) "A"
       = Ok (last_nontodo [] PNone, n) ∧
       navigable (fun c => c ∈ [[]; ch "B"]) n.
Proof.
  apply (nextprev_around_target _ [[ch "A"; []]; [ch "B"]] "A" [] (ch "A") [[]; ch "B"]).
  - apply mk_config_shape.
  - reflexivity.
  - constructor.
  - reflexivity.
  - reflexivity.
Defined.

(** ** The sort is stable *)

Section Stable.

Local Open Scope list_scope.

Variable name : string.

Lemma py_lt_key_is (a b : pyval) :
  py_lt a b = Ok true → py_eq_str a name = true → py_eq_str b name = true → False.
Proof.
  destruct a as [| | |sa| |], b as [| | |sb| |]; simpl; try done.
  intros [= H] ->%String.eqb_eq ->%String.eqb_eq.
  unfold String.ltb in H.
  pose proof (String.compare_antisym name name) as Ha.
  by destruct (String.compare name name).
Qed.

Lemma insert_keyed_filter {A : Type} (x : pyval * A) (l s : list (pyval * A)) :
  insert_keyed x l = Ok s →
  filter (fun p => key_is name p = true) s
  = filter (fun p => key_is name p = true) (x :: l).
Proof.
  revert s. induction l as [|y l IH]; intros s; simpl.
  - by intros [= <-].
  - result_unfold. destruct (py_lt y.1 x.1) as [[]|] eqn:E; [| |done].
    + destruct (insert_keyed x l) as [s'|]; [|done]. intros [= <-].
      rewrite (filter_cons _ y s'), (IH s' eq_refl).
      rewrite (filter_cons _ x (y :: l)), (filter_cons _ x l), (filter_cons _ y l).
      repeat case_decide; try done.
      exfalso. by eapply py_lt_key_is.
    + by intros [= <-].
Qed.

Lemma sort_keyed_filter {A : Type} (l s : list (pyval * A)) :
  sort_keyed l = Ok s →
  filter (fun p => key_is name p = true) s = filter (fun p => key_is name p = true) l.
Proof.
  revert s. induction l as [|x l IH]; intros s; simpl.
  - by intros [= <-].
  - result_unfold. destruct (sort_keyed l) as [s'|]; [|done].
    intros H%insert_keyed_filter. rewrite H.
    by rewrite (filter_cons _ x s'), (filter_cons _ x l), (IH s' eq_refl).
Qed.

Lemma filter_names (l : list (pyval * (string * pyval))) :
  Forall (fun p => name_of p.2 = Ok p.1) l →
  with_name name (l.*2) = (filter (fun p => key_is name p = true) l).*2.
Proof.
  unfold with_name. induction 1 as [|p l Hp _ IH]; [done|].
  rewrite fmap_cons, !filter_cons, IH.
  unfold has_name, key_is. rewrite Hp. by case_decide.
Qed.

Lemma sorted_by_name_stable (xs ys : list (string * pyval)) :
  sorted_by name_of xs = Ok ys → with_name name ys = with_name name xs.
Proof.
  unfold sorted_by.
  destruct (mapM name_of xs) as [ks|] eqn:Hk; [|done].
  change (Ok ks ≫= ?f) with (f ks). cbv beta.
  destruct (sort_keyed (zip ks xs)) as [s|] eqn:Hs; [|done].
  intros [= <-].
  pose proof (mapM_zip_keys xs ks Hk) as Hz.
  assert (Hks : Forall (fun p => name_of p.2 = Ok p.1) s).
  { by rewrite (sort_keyed_perm _ _ Hs). }
  rewrite (filter_names s Hks), (sort_keyed_filter _ _ Hs), <- (filter_names _ Hz).
  rewrite snd_zip; [done|]. by rewrite (mapM_result_length _ _ _ Hk).
Qed.

End Stable.

(** X17: the sort of the ebook handler is stable: for every name, the
    contributors that bear it are in the same order after the handler as
    before. *)
Theorem ebook_stable (get_config : string → M loc) (lang year : string)
    (w w1 : world) (config : loc) (d items : pydict) (r : view_result) (w' : world) :
  get_config year w = (Ok config, w1) →
  store w1 !! config = Some d →
  dict_get "contributors" d = Some (PDict items) →
  dict_wf items →
  ebook get_config lang year w = (Ok r, w') →
  ∃ items', contributors_of w' config = Some items' ∧
            ∀ name, with_name name items' = with_name name items.
Proof.
  intros Hl Hs Hc Hwf.
  rewrite (ebook_unfold get_config lang year w w1 config Hl d items Hs Hc).
  destruct (sorted_by name_of items) as [items'|] eqn:Hsort; [|done].
  intros [= _ <-]. exists items'.
  rewrite (dict_of_items_wf items')
    by (eapply dict_wf_perm; [by eapply sorted_by_perm|done]).
  split; [by apply contributors_of_rebound|].
  intros name. by apply sorted_by_name_stable.
Qed.

Lemma ebook_stable_witness :
  ∃ items',
    contributors_of (ebook sample_get_config "en" "2019" twins_world).2 0%nat = Some items' ∧
    ∀ name, with_name name items' = with_name name [zed; amy2; amy].
Proof.
  apply (ebook_stable sample_get_config "en" "2019" twins_world twins_world 0%nat
           twins_config [zed; amy2; amy] (Template "en/2019/ebook.html" (Some 0%nat) [])).
  - reflexivity.
  - reflexivity.
  - reflexivity.
  - apply (bool_decide_unpack (dict_wf [zed; amy2; amy])). reflexivity.
  - reflexivity.
Defined.

Example ebook_twins :
  contributors_of (ebook sample_get_config "en" "2019" twins_world).2 0%nat
  = Some [amy2; amy; zed].
Proof. reflexivity. Qed.
